(** * The foundation module's user service (learning-event-driven)

    A shallow embedding of [modules/foundation]: the [User] entity with its
    validation ([user.go]), the error taxonomy ([errors.go]), the in-memory
    service ([service.go]) and the HTTP routing ([handlers.go], [main.go]).

    Conventions.
    - A Go [string] is a sequence of bytes: [string] here, whose characters
      ([ascii]) are the bytes.  [len(s)] is the number of bytes.
    - [map[string]*User] is a [gmap string User].  The service never hands a
      stored pointer out (every result is a copy), so a mutation through the
      pointer found under key [id] is an [insert] at [id].
    - [time.Now()] and [crypto/rand] are the environment: every operation that
      reads them takes the value read as an argument ([now : Time],
      [rnd : list ascii]).
    - An operation returns the store it leaves behind together with its Go
      result; a pair of a [*User] and an [error] is a [result User]. *)

From Stdlib Require Import ZArith Ascii String List Bool Lia.
From stdpp Require Import gmap strings list fin_maps.

Local Open Scope Z_scope.

(** ** Go strings: bytes, runes and [for i, c := range s] *)

Module GoString.

Definition rune := Z.

(** [utf8.RuneError], what an invalid encoding decodes to. *)
Definition RuneError : rune := 65533.

Definition byteval (c : ascii) : Z := Z.of_N (N_of_ascii c).

(** [s[i]] as a number; the callers below only index inside the string. *)
Definition byteAt (s : list ascii) (i : nat) : Z := byteval (nth i s zero).

(** The continuation-byte bounds [locb], [hicb] of package [unicode/utf8]. *)
Definition locb : Z := 128.
Definition hicb : Z := 191.

(** Package [unicode/utf8]'s table [first] with [acceptRanges]: for a
    leading byte of a multi-byte encoding, the encoding's size and the
    accepted range of its second byte; [None] for a byte that is a
    character of its own (ASCII) or that starts no encoding. *)
Definition acceptRange (s0 : Z) : option (Z * Z * Z) :=
  if s0 <? 194 then None
  else if s0 <=? 223 then Some (2, locb, hicb)
  else if s0 =? 224 then Some (3, 160, hicb)
  else if s0 <=? 236 then Some (3, locb, hicb)
  else if s0 =? 237 then Some (3, locb, 159)
  else if s0 <=? 239 then Some (3, locb, hicb)
  else if s0 =? 240 then Some (4, 144, hicb)
  else if s0 <=? 243 then Some (4, locb, hicb)
  else if s0 =? 244 then Some (4, locb, 143)
  else None.

(** [utf8.DecodeRuneInString]: the first rune of [s] and its width in
    bytes.  An invalid or truncated encoding gives [(RuneError, 1)]. *)
Definition decodeRune (s : list ascii) : rune * nat :=
  let n := Z.of_nat (length s) in
  if n <? 1 then (RuneError, 0%nat)
  else
    let s0 := byteAt s 0 in
    match acceptRange s0 with
    | None => (if s0 <? 128 then s0 else RuneError, 1%nat)
    | Some (sz, lo, hi) =>
        if n <? sz then (RuneError, 1%nat)
        else
          let s1 := byteAt s 1 in
          if (s1 <? lo) || (hi <? s1) then (RuneError, 1%nat)
          else if sz <=? 2 then
            (Z.lor (Z.shiftl (Z.land s0 31) 6) (Z.land s1 63), 2%nat)
          else
            let s2 := byteAt s 2 in
            if (s2 <? locb) || (hicb <? s2) then (RuneError, 1%nat)
            else if sz <=? 3 then
              (Z.lor (Z.lor (Z.shiftl (Z.land s0 15) 12)
                            (Z.shiftl (Z.land s1 63) 6))
                     (Z.land s2 63), 3%nat)
            else
              let s3 := byteAt s 3 in
              if (s3 <? locb) || (hicb <? s3) then (RuneError, 1%nat)
              else
                (Z.lor (Z.lor (Z.lor (Z.shiftl (Z.land s0 7) 18)
                                     (Z.shiftl (Z.land s1 63) 12))
                              (Z.shiftl (Z.land s2 63) 6))
                       (Z.land s3 63), 4%nat)
    end.

(** The iterations of [for i, c := range s]: the byte index at which each
    rune starts, with the rune.  [skip] counts the bytes of the current
    rune that are still to be passed over; [i] is the index of the head of
    [s] in the whole string. *)
Fixpoint rangeFrom (skip : nat) (i : Z) (s : list ascii) : list (Z * rune) :=
  match s with
  | [] => []
  | _ :: t =>
      match skip with
      | S k => rangeFrom k (i + 1) t
      | O =>
          let '(r, w) := decodeRune s in
          (i, r) :: rangeFrom (Nat.pred w) (i + 1) t
      end
  end.

Definition range (s : list ascii) : list (Z * rune) := rangeFrom 0 0 s.

(** [strings.HasPrefix] and [strings.TrimPrefix]. *)
Fixpoint HasPrefix (s prefix : string) {struct prefix} : bool :=
  match prefix, s with
  | EmptyString, _ => true
  | String p prefix', String c s' => bool_decide (c = p) && HasPrefix s' prefix'
  | String _ _, EmptyString => false
  end.

Fixpoint dropBytes (n : nat) (s : string) : string :=
  match n, s with
  | S n', String _ s' => dropBytes n' s'
  | _, _ => s
  end.

Definition TrimPrefix (s prefix : string) : string :=
  if HasPrefix s prefix then dropBytes (String.length prefix) s else s.

End GoString.

(** ** user.go: email validation *)

Definition at_sign : Z := 64.  (* '@' *)
Definition dot : Z := 46.      (* '.' *)

(** The first loop of [isValidEmail]: [atIndex] after the iterations [its],
    or [None] when the loop returns [false] at a second ['@']. *)
Fixpoint findAt (its : list (Z * GoString.rune)) (atIndex : Z) : option Z :=
  match its with
  | [] => Some atIndex
  | (i, char) :: rest =>
      if char =? at_sign then
        if negb (atIndex =? -1) then None   (* Multiple @ symbols *)
        else findAt rest i
      else findAt rest atIndex
  end.

(** The second loop, [for i := ...; i < len(email); i++], entered at index
    [i] with [rest] the bytes of [email] from [i] on. *)
Fixpoint dotAfter (len : Z) (i : Z) (rest : list ascii) : bool :=
  match rest with
  | [] => false
  | c :: rest' =>
      if (GoString.byteval c =? dot) && (i <? len - 1) then true
      else dotAfter len (i + 1) rest'
  end.

Definition isValidEmailBytes (email : list ascii) : bool :=
  let len := Z.of_nat (length email) in
  match findAt (GoString.range email) (-1) with
  | None => false
  | Some atIndex =>
      if (atIndex =? -1) || (atIndex =? 0) || (atIndex =? len - 1) then false
      else dotAfter len (atIndex + 1) (drop (Z.to_nat (atIndex + 1)) email)
  end.

Definition isValidEmail (email : string) : bool :=
  isValidEmailBytes (list_ascii_of_string email).

(** The byte indexes, counted from [i], at which [s] holds the byte [c]:
    what the statements about [isValidEmail]'s first loop are phrased with. *)
Fixpoint indexesOf (c : ascii) (i : Z) (s : list ascii) : list Z :=
  match s with
  | [] => []
  | d :: t =>
      if bool_decide (d = c) then i :: indexesOf c (i + 1) t
      else indexesOf c (i + 1) t
  end.

(** ** errors.go *)

Definition ErrorType := string.

Definition ErrorTypeValidation : ErrorType := "VALIDATION_ERROR".
Definition ErrorTypeNotFound : ErrorType := "NOT_FOUND_ERROR".
Definition ErrorTypeConflict : ErrorType := "CONFLICT_ERROR".
Definition ErrorTypeInternal : ErrorType := "INTERNAL_ERROR".

(** [AppError] without its [Cause], which only [NewInternalError] sets and
    nothing reads but [Unwrap]. *)
Record AppError := {
  Type_ : ErrorType;
  Message : string;
  Field : string
}.

(** A Go [error] value: an [*AppError], an error wrapped with a message
    ([WrapError]), or any other error. *)
Inductive error :=
| AppErr (e : AppError)
| Wrapped (message : string) (cause : error)
| Opaque (message : string).

(** What a Go function returning [(T, error)] returns. *)
Inductive result (A : Type) :=
| Ok (a : A)
| Err (e : error).
Arguments Ok {A} a.
Arguments Err {A} e.

Definition StatusOK : Z := 200.
Definition StatusCreated : Z := 201.
Definition StatusNoContent : Z := 204.
Definition StatusBadRequest : Z := 400.
Definition StatusNotFound : Z := 404.
Definition StatusMethodNotAllowed : Z := 405.
Definition StatusConflict : Z := 409.
Definition StatusInternalServerError : Z := 500.

Definition HTTPStatusCode (e : AppError) : Z :=
  if bool_decide (Type_ e = ErrorTypeValidation) then StatusBadRequest
  else if bool_decide (Type_ e = ErrorTypeNotFound) then StatusNotFound
  else if bool_decide (Type_ e = ErrorTypeConflict) then StatusConflict
  else if bool_decide (Type_ e = ErrorTypeInternal) then
    StatusInternalServerError
  else StatusInternalServerError.

Definition NewValidationError (field message : string) : AppError :=
  {| Type_ := ErrorTypeValidation; Message := message; Field := field |}.

Definition NewNotFoundError (resource id : string) : AppError :=
  {| Type_ := ErrorTypeNotFound;
     Message := resource +:+ " with id '" +:+ id +:+ "' not found";
     Field := "" |}.

Definition NewConflictError (message : string) : AppError :=
  {| Type_ := ErrorTypeConflict; Message := message; Field := "" |}.

Definition NewInternalError (message : string) : AppError :=
  {| Type_ := ErrorTypeInternal; Message := message; Field := "" |}.

Definition WrapError (err : error) (message : string) : error :=
  Wrapped message err.

(** [IsAppError]: [errors.As] walks the chain of wrapped errors. *)
Fixpoint IsAppError (err : error) : option AppError :=
  match err with
  | AppErr e => Some e
  | Wrapped _ cause => IsAppError cause
  | Opaque _ => None
  end.

(** ** user.go *)

(** A reading of the clock, [time.Now()]. *)
Definition Time := Z.

Record User := {
  ID : string;
  Name : string;
  Email : string;
  CreatedAt : Time;
  UpdatedAt : Time
}.

(** What one call reads from its environment: the eight bytes that
    [rand.Read] stores in [generateID]'s buffer and the clock. *)
Record Env := {
  rnd : list ascii;
  now : Time
}.

(** ** service.go: [generateID], the [%x] formatting of the random bytes *)

Definition hexDigit (d : N) : ascii :=
  nth (N.to_nat d) (list_ascii_of_string "0123456789abcdef") zero.

Fixpoint hex (bytes : list ascii) : string :=
  match bytes with
  | [] => EmptyString
  | b :: rest =>
      String (hexDigit (N.div (N_of_ascii b) 16))
        (String (hexDigit (N.modulo (N_of_ascii b) 16)) (hex rest))
  end.

Definition generateID (bytes : list ascii) : string := hex bytes.

(** ** user.go, continued *)

Definition NewUser (e : Env) (name email : string) : User :=
  {| ID := generateID (rnd e);
     Name := name;
     Email := email;
     CreatedAt := now e;
     UpdatedAt := now e |}.

(** [Validate]; [None] is the [nil] error. *)
Definition Validate (u : User) : option AppError :=
  if bool_decide (Name u = "") then
    Some (NewValidationError "name" "name cannot be empty")
  else if bool_decide (Email u = "") then
    Some (NewValidationError "email" "email cannot be empty")
  else if negb (isValidEmail (Email u)) then
    Some (NewValidationError "email" "email format is invalid")
  else None.

(** [Update]: the receiver after the call.  The clock is read only when the
    temporary user is valid. *)
Definition Update (u : User) (name email : string) (now : Time) : User :=
  let temp := {| ID := ""; Name := name; Email := email;
                 CreatedAt := 0; UpdatedAt := 0 |} in
  match Validate temp with
  | Some _ => u
  | None =>
      let u1 := if bool_decide (name ≠ "")
                then {| ID := ID u; Name := name; Email := Email u;
                        CreatedAt := CreatedAt u; UpdatedAt := UpdatedAt u |}
                else u in
      let u2 := if bool_decide (email ≠ "")
                then {| ID := ID u1; Name := Name u1; Email := email;
                        CreatedAt := CreatedAt u1; UpdatedAt := UpdatedAt u1 |}
                else u1 in
      {| ID := ID u2; Name := Name u2; Email := Email u2;
         CreatedAt := CreatedAt u2; UpdatedAt := now |}
  end.

(** What a call of [Update] asks for, in the words of the specification
    (section 4.2, step 3): a supplied name or email that is not empty
    replaces the stored one, an empty one leaves it as it is.  The
    validation of an update (step 4) is the validation of this record. *)
Definition requested (u : User) (name email : string) : User :=
  {| ID := ID u;
     Name := if bool_decide (name ≠ "") then name else Name u;
     Email := if bool_decide (email ≠ "") then email else Email u;
     CreatedAt := CreatedAt u;
     UpdatedAt := UpdatedAt u |}.

(** ** service.go: [InMemoryUserService] *)

Module InMemoryUserService.

(** [checkEmailExists]; [None] is the [nil] error. *)
Definition checkEmailExists (users : gmap string User) (email : string)
  : option AppError :=
  if existsb (λ '(_, user), bool_decide (Email user = email))
             (map_to_list users)
  then Some (NewConflictError "email already exists")
  else None.

(** [seedData], given what its three [NewUser] calls read. *)
Definition seedData (users : gmap string User) (e1 e2 e3 : Env)
  : gmap string User :=
  let seeds := [NewUser e1 "John Doe" "john.doe@example.com";
                NewUser e2 "Jane Smith" "jane.smith@example.com";
                NewUser e3 "Bob Johnson" "bob.johnson@example.com"] in
  fold_left (λ s user, <[ID user := user]> s) seeds users.

Definition NewInMemoryUserService (e1 e2 e3 : Env) : gmap string User :=
  seedData ∅ e1 e2 e3.

(** [GetUsers].  Go leaves the order of a map iteration open; this is one
    order, and nothing below depends on which. *)
Definition GetUsers (users : gmap string User)
  : gmap string User * result (list User) :=
  (users, Ok (map snd (map_to_list users))).

Definition GetUserByID (users : gmap string User) (id : string)
  : gmap string User * result User :=
  match users !! id with
  | None => (users, Err (AppErr (NewNotFoundError "user" id)))
  | Some user => (users, Ok user)
  end.

Definition CreateUser (users : gmap string User) (e : Env)
    (name email : string) : gmap string User * result User :=
  match checkEmailExists users email with
  | Some err => (users, Err (AppErr err))
  | None =>
      let user := NewUser e name email in
      match Validate user with
      | Some err => (users, Err (AppErr err))
      | None => (<[ID user := user]> users, Ok user)
      end
  end.

(** The scan of [UpdateUser] for another user holding [email]. *)
Definition emailTakenByOther (users : gmap string User) (id email : string)
  : bool :=
  existsb (λ '(_, existingUser),
             bool_decide (ID existingUser ≠ id)
             && bool_decide (Email existingUser = email))
          (map_to_list users).

(** [UpdateUser].  [user] points into the map, so what [user.Update]
    does to it is done to the stored record, before [Validate] runs. *)
Definition UpdateUser (users : gmap string User) (e : Env)
    (id name email : string) : gmap string User * result User :=
  match users !! id with
  | None => (users, Err (AppErr (NewNotFoundError "user" id)))
  | Some user =>
      if bool_decide (email ≠ "") && bool_decide (email ≠ Email user)
         && emailTakenByOther users id email
      then (users, Err (AppErr (NewConflictError "email already exists")))
      else
        let user' := Update user name email (now e) in
        let users' := <[id := user']> users in
        match Validate user' with
        | Some err => (users', Err (AppErr err))
        | None => (users', Ok user')
        end
  end.

(** [DeleteUser]; [None] is the [nil] error. *)
Definition DeleteUser (users : gmap string User) (id : string)
  : gmap string User * option error :=
  match users !! id with
  | None => (users, Some (AppErr (NewNotFoundError "user" id)))
  | Some _ => (delete id users, None)
  end.

End InMemoryUserService.

(** ** The states of the service *)

(** No two entries of the map hold the same email. *)
Definition uniqueEmails (users : gmap string User) : Prop :=
  ∀ id1 id2 u1 u2,
    users !! id1 = Some u1 → users !! id2 = Some u2 →
    Email u1 = Email u2 → id1 = id2.

(** Every user is stored under its own [ID]. *)
Definition keyedByID (users : gmap string User) : Prop :=
  ∀ id u, users !! id = Some u → ID u = id.

(** Every stored user passes [Validate]. *)
Definition allValid (users : gmap string User) : Prop :=
  ∀ id u, users !! id = Some u → Validate u = None.

Definition consistent (users : gmap string User) : Prop :=
  uniqueEmails users ∧ keyedByID users ∧ allValid users.

(** The maps that a service can hold: the seeded map of a new service and
    what calls made one after the other leave behind. *)
Inductive reachable : gmap string User → Prop :=
| reachable_new (e1 e2 e3 : Env) :
    reachable (InMemoryUserService.NewInMemoryUserService e1 e2 e3)
| reachable_create (users : gmap string User) (e : Env) (name email : string) :
    reachable users →
    reachable (InMemoryUserService.CreateUser users e name email).1
| reachable_update (users : gmap string User) (e : Env)
    (id name email : string) :
    reachable users →
    reachable (InMemoryUserService.UpdateUser users e id name email).1
| reachable_delete (users : gmap string User) (id : string) :
    reachable users →
    reachable (InMemoryUserService.DeleteUser users id).1.

(** ** Sample values

    A new service whose three seeds read the random bytes [01..01],
    [02..02], [03..03] and the clock at 1000, 1001, 1002: the ids are
    [0101010101010101], [0202020202020202] and [0303030303030303]. *)

Definition envOf (b : ascii) (t : Time) : Env :=
  {| rnd := repeat b 8; now := t |}.

Definition seeded : gmap string User :=
  InMemoryUserService.NewInMemoryUserService
    (envOf "001" 1000) (envOf "002" 1001) (envOf "003" 1002).

Definition johnID : string := "0101010101010101".

(** The seeded map after a [CreateUser], an [UpdateUser] and a
    [DeleteUser]. *)
Definition afterCalls : gmap string User :=
  (InMemoryUserService.DeleteUser
     (InMemoryUserService.UpdateUser
        (InMemoryUserService.CreateUser seeded (envOf "004" 2000)
           "Alice" "alice@example.com").1
        (envOf "005" 2001) johnID "Johnny" "johnny@example.com").1
     "0202020202020202").1.

(** ** user.go: the [UserService] interface *)

Class UserService (S : Type) := {
  GetUsers : S → S * result (list User);
  GetUserByID : S → string → S * result User;
  CreateUser : S → Env → string → string → S * result User;
  UpdateUser : S → Env → string → string → string → S * result User;
  DeleteUser : S → string → S * option error
}.

#[export] Instance inMemoryUserService : UserService (gmap string User) := {
  GetUsers := InMemoryUserService.GetUsers;
  GetUserByID := InMemoryUserService.GetUserByID;
  CreateUser := InMemoryUserService.CreateUser;
  UpdateUser := InMemoryUserService.UpdateUser;
  DeleteUser := InMemoryUserService.DeleteUser
}.

(** ** net/url, path and net/http: how the server's mux reads a path

    [main] routes with an [http.ServeMux].  The mux of Go 1.22 and later
    matches its patterns against the path as it arrived, percent-encoded
    ([URL.EscapedPath]), segment by segment, and answers a path that is not
    in canonical form itself, with a redirect.  The handlers read the decoded
    path ([URL.Path]). *)

Module URL.

(** [ishex] and [unhex] of package [net/url]. *)
Definition ishex (c : ascii) : bool :=
  let b := GoString.byteval c in
  ((48 <=? b) && (b <=? 57)) || ((97 <=? b) && (b <=? 102))
  || ((65 <=? b) && (b <=? 70)).

Definition unhex (c : ascii) : Z :=
  let b := GoString.byteval c in
  if (48 <=? b) && (b <=? 57) then b - 48
  else if (97 <=? b) && (b <=? 102) then b - 97 + 10
  else if (65 <=? b) && (b <=? 70) then b - 65 + 10
  else 0.

(** [unescape] in the two modes of a path ([encodePath] and
    [encodePathSegment], which decode alike): a [%] with the two hex digits
    after it is the byte they spell, every other byte is itself; [None] is
    the [EscapeError] for a [%] that two hex digits do not follow. *)
Fixpoint unescape (s : string) : option string :=
  match s with
  | EmptyString => Some EmptyString
  | String c rest =>
      if bool_decide (c = "%"%char) then
        match rest with
        | String a (String b rest') =>
            if ishex a && ishex b then
              String (ascii_of_N
                        (Z.to_N (Z.lor (Z.shiftl (unhex a) 4) (unhex b))))
                <$> unescape rest'
            else None
        | _ => None
        end
      else String c <$> unescape rest
  end.

End URL.

Module Path.

(** The elements of a path: what stands between its slashes. *)
Fixpoint elements (path : string) : list string :=
  match path with
  | EmptyString => [EmptyString]
  | String c rest =>
      if bool_decide (c = "/"%char) then EmptyString :: elements rest
      else match elements rest with
           | elem :: elems => String c elem :: elems
           | [] => [String c EmptyString]
           end
  end.

(** [path.Clean] on a rooted path, the only kind that [cleanPath] gives it:
    an empty element and a [.] are dropped, a [..] drops the element before
    it (at the root, nothing), and what is kept is joined with single
    slashes. *)
Definition Clean (path : string) : string :=
  let out :=
    fold_left
      (λ out elem,
         if bool_decide (elem = "") || bool_decide (elem = ".") then out
         else if bool_decide (elem = "..") then removelast out
         else out ++ [elem])
      (elements (GoString.dropBytes 1 path)) [] in
  "/" +:+ String.concat "/" out.

End Path.

(** ** handlers.go and the routes of main.go *)

Definition MethodGet : string := "GET".
Definition MethodPost : string := "POST".
Definition MethodPut : string := "PUT".
Definition MethodDelete : string := "DELETE".
Definition MethodConnect : string := "CONNECT".

(** What [net/url] has made of the path of a request target: the target is
    in origin form, so the path starts with a slash, and [path], the
    [URL.Path], is the decoding of [escapedPath], the [URL.EscapedPath()].
    (A target whose path does not decode never reaches a handler: the server
    answers it with 400.) *)
Definition parsed (escapedPath path : string) : bool :=
  GoString.HasPrefix escapedPath "/"
  && bool_decide (URL.unescape escapedPath = Some path).

(** The part of an [*http.Request] that the mux and the handlers read:
    [URLPath] is [r.URL.Path], [EscapedPath] is [r.URL.EscapedPath()]. *)
Record Request := {
  Method : string;
  URLPath : string;
  EscapedPath : string;
  RequestBody : string;
  URL_parsed : parsed EscapedPath URLPath = true
}.

(** ** The [http.ServeMux] of [main] *)

Module ServeMux.

(** [p[len(p)-1]]. *)
Fixpoint lastByte (s : string) : option ascii :=
  match s with
  | EmptyString => None
  | String c rest =>
      match rest with
      | EmptyString => Some c
      | String _ _ => lastByte rest
      end
  end.

(** [cleanPath]: the canonical form of a path, [path.Clean] of it with the
    trailing slash kept. *)
Definition cleanPath (p : string) : string :=
  if bool_decide (p = "") then "/"
  else
    let p := if GoString.HasPrefix p "/" then p else "/" +:+ p in
    let np := Path.Clean p in
    if bool_decide (lastByte p = Some "/"%char) && bool_decide (np ≠ "/")
    then np +:+ "/"
    else np.

(** [pathUnescape]: a segment that does not decode is taken as it is. *)
Definition pathUnescape (path : string) : string :=
  match URL.unescape path with
  | Some u => u
  | None => path
  end.

(** [path[:i]] and [path[i:]] for [i] the index of the first slash of
    [path], its length when it has none. *)
Fixpoint cutAtSlash (path : string) : string * string :=
  match path with
  | EmptyString => (EmptyString, EmptyString)
  | String c rest =>
      if bool_decide (c = "/"%char) then (EmptyString, path)
      else let '(seg, rest') := cutAtSlash rest in (String c seg, rest')
  end.

(** [firstSegment]: the first segment of a path that starts with a slash,
    decoded, and the rest of the path, still encoded. *)
Definition firstSegment (path : string) : string * string :=
  if bool_decide (path = "/") then ("/", "")
  else
    let '(seg, rest) := cutAtSlash (GoString.dropBytes 1 path) in
    (pathUnescape seg, rest).

(** What the mux finds for a request: a redirect to [path] of its own, or
    one of the three handlers that [main] registers. *)
Inductive Handler :=
| RedirectHandler (path : string)
| UserHandler
| HealthHandler
| RootHandler.

(** The match of a path against the four patterns of [main], [/users],
    [/users/], [/health] and [/], none of which names a method or a host.
    The patterns are matched segment by segment, a literal segment before
    the trailing slash that stands for any rest: a first segment [users] is
    matched by [/users] when nothing follows it and by [/users/] otherwise,
    [health] by [/health] when nothing follows it, and the pattern [/]
    matches every other path. *)
Definition matchPath (path : string) : Handler :=
  let '(seg, rest) := firstSegment path in
  if bool_decide (seg = "users") then UserHandler
  else if bool_decide (seg = "health") && bool_decide (rest = "")
       then HealthHandler
  else RootHandler.

(** [findHandler].  A path that is not in canonical form is answered with a
    redirect to the canonical one, except for CONNECT.  (The other redirect
    of the mux, to the path with a slash appended, is for a path that no
    pattern matches exactly while one does so with the slash appended: of the
    patterns of [main], [/users/] matches so only [/users] with its slash,
    which [/users] matches itself, and [/] only the empty path, which no
    request in origin form has.) *)
Definition findHandler (r : Request) : Handler :=
  let escapedPath := EscapedPath r in
  if bool_decide (Method r = MethodConnect) then matchPath escapedPath
  else
    let path := cleanPath escapedPath in
    if bool_decide (path ≠ escapedPath) then RedirectHandler path
    else matchPath path.

End ServeMux.

(** What a handler writes: the JSON document, by shape. *)
Inductive Body :=
| UsersJSON (users : list User)
| UserJSON (user : User)
| AppErrorJSON (type_ : ErrorType) (message field : string)
| ErrorJSON (message : string)
| HealthJSON
| RootJSON
| NotFoundText
| Empty.

Record Response := {
  StatusCode : Z;
  ResponseBody : Body
}.

(** What the server answers: the redirect of the mux to [path], whose
    status is the one of the Go release (301, in later releases 307), or the
    response that a handler writes. *)
Inductive Reply :=
| Redirect (path : string)
| Handled (response : Response).

Section Handlers.

(** [encoding/json]: decoding a request body into a [CreateUserRequest]
    (unknown fields disallowed) and into an [UpdateUserRequest]; [None] is
    a decoding error, otherwise the fields [Name] and [Email]. *)
Variable decodeCreateUserRequest : string → option (string * string).
Variable decodeUpdateUserRequest : string → option (string * string).

Context {S : Type} `{UserService S}.

Definition writeJSONResponse (statusCode : Z) (data : Body) : Response :=
  {| StatusCode := statusCode; ResponseBody := data |}.

Definition writeErrorResponse (statusCode : Z) (message : string) : Response :=
  writeJSONResponse statusCode (ErrorJSON message).

Definition handleError (err : error) : Response :=
  match IsAppError err with
  | Some appErr =>
      writeJSONResponse (HTTPStatusCode appErr)
        (AppErrorJSON (Type_ appErr) (Message appErr) (Field appErr))
  | None =>
      writeErrorResponse StatusInternalServerError "internal server error"
  end.

Definition handleGetUsers (service : S) : S * Response :=
  match GetUsers service with
  | (service', Err err) => (service', handleError err)
  | (service', Ok users) =>
      (service', writeJSONResponse StatusOK (UsersJSON users))
  end.

Definition handleGetUser (service : S) (userID : string) : S * Response :=
  match GetUserByID service userID with
  | (service', Err err) => (service', handleError err)
  | (service', Ok user) =>
      (service', writeJSONResponse StatusOK (UserJSON user))
  end.

Definition handleCreateUser (service : S) (e : Env) (r : Request)
  : S * Response :=
  match decodeCreateUserRequest (RequestBody r) with
  | None => (service, writeErrorResponse StatusBadRequest "invalid JSON body")
  | Some (name, email) =>
      match CreateUser service e name email with
      | (service', Err err) => (service', handleError err)
      | (service', Ok user) =>
          (service', writeJSONResponse StatusCreated (UserJSON user))
      end
  end.

Definition handleUpdateUser (service : S) (e : Env) (r : Request)
    (userID : string) : S * Response :=
  match decodeUpdateUserRequest (RequestBody r) with
  | None => (service, writeErrorResponse StatusBadRequest "invalid JSON body")
  | Some (name, email) =>
      match UpdateUser service e userID name email with
      | (service', Err err) => (service', handleError err)
      | (service', Ok user) =>
          (service', writeJSONResponse StatusOK (UserJSON user))
      end
  end.

Definition handleDeleteUser (service : S) (userID : string) : S * Response :=
  match DeleteUser service userID with
  | (service', Some err) => (service', handleError err)
  | (service', None) =>
      (service', {| StatusCode := StatusNoContent; ResponseBody := Empty |})
  end.

(** [UserHandler.ServeHTTP]. *)
Definition ServeHTTP (service : S) (e : Env) (r : Request) : S * Response :=
  let path := GoString.TrimPrefix (URLPath r) "/users" in
  if bool_decide (path = "") || bool_decide (path = "/") then
    if bool_decide (Method r = MethodGet) then handleGetUsers service
    else if bool_decide (Method r = MethodPost) then
      handleCreateUser service e r
    else (service,
          writeErrorResponse StatusMethodNotAllowed "method not allowed")
  else if GoString.HasPrefix path "/" then
    let userID := GoString.TrimPrefix path "/" in
    if bool_decide (Method r = MethodGet) then handleGetUser service userID
    else if bool_decide (Method r = MethodPut) then
      handleUpdateUser service e r userID
    else if bool_decide (Method r = MethodDelete) then
      handleDeleteUser service userID
    else (service,
          writeErrorResponse StatusMethodNotAllowed "method not allowed")
  else (service, writeErrorResponse StatusNotFound "endpoint not found").

(** [healthHandler] never calls [WriteHeader]: the status is the 200 that
    the first write sends. *)
Definition healthHandler (r : Request) : Response :=
  {| StatusCode := StatusOK; ResponseBody := HealthJSON |}.

Definition rootHandler (r : Request) : Response :=
  if bool_decide (URLPath r ≠ "/") then
    {| StatusCode := StatusNotFound; ResponseBody := NotFoundText |}
  else {| StatusCode := StatusOK; ResponseBody := RootJSON |}.

(** What a handler leaves behind and writes, as the answer of the server. *)
Definition handled (served : S * Response) : S * Reply :=
  (served.1, Handled served.2).

(** [main]'s mux in front of the handlers: the handler that [findHandler]
    finds serves the request. *)
Definition mux (service : S) (e : Env) (r : Request) : S * Reply :=
  match ServeMux.findHandler r with
  | ServeMux.RedirectHandler path => (service, Redirect path)
  | ServeMux.UserHandler => handled (ServeHTTP service e r)
  | ServeMux.HealthHandler => handled (service, healthHandler r)
  | ServeMux.RootHandler => handled (service, rootHandler r)
  end.

End Handlers.

(** A JSON decoder that rejects every body, for the examples. *)
Definition noJSON : string → option (string * string) := λ _, None.

(** A request with an empty body whose path arrives as [path], with nothing
    escaped in it. *)
Definition request (method path : string) (ok : parsed path path = true)
  : Request :=
  {| Method := method; URLPath := path; EscapedPath := path;
     RequestBody := ""; URL_parsed := ok |}.

(** ** Concurrent callers of [CreateUser]

    [CreateUser] takes the mutex twice: [checkEmailExists] holds the read
    lock for its scan and releases it on return; the write lock is taken for
    the insertion only.  Between the two the call holds no lock, and what it
    does there ([NewUser], [Validate]) touches nothing shared.  A call is thus
    two atomic steps on the map, and concurrent calls interleave by steps. *)

Module Concurrent.

(** Where a call to [CreateUser] stands. *)
Inductive pc :=
| AtCheck                      (* about to call checkEmailExists *)
| AtInsert (user : User)       (* about to take s.mutex.Lock() *)
| Returned (r : result User).

Record call := {
  callEnv : Env;
  callName : string;
  callEmail : string;
  callPC : pc
}.

Definition newCall (e : Env) (name email : string) : call :=
  {| callEnv := e; callName := name; callEmail := email; callPC := AtCheck |}.

Definition at_pc (c : call) (p : pc) : call :=
  {| callEnv := callEnv c; callName := callName c;
     callEmail := callEmail c; callPC := p |}.

(** One atomic step of one call. *)
Definition step (users : gmap string User) (c : call)
  : gmap string User * call :=
  match callPC c with
  | AtCheck =>
      match InMemoryUserService.checkEmailExists users (callEmail c) with
      | Some err => (users, at_pc c (Returned (Err (AppErr err))))
      | None =>
          let user := NewUser (callEnv c) (callName c) (callEmail c) in
          match Validate user with
          | Some err => (users, at_pc c (Returned (Err (AppErr err))))
          | None => (users, at_pc c (AtInsert user))
          end
      end
  | AtInsert user =>
      (<[ID user := user]> users, at_pc c (Returned (Ok user)))
  | Returned _ => (users, c)
  end.

(** A schedule names, step by step, the call that moves. *)
Fixpoint run (schedule : list nat) (users : gmap string User)
    (calls : list call) : gmap string User * list call :=
  match schedule with
  | [] => (users, calls)
  | i :: schedule' =>
      match calls !! i with
      | None => run schedule' users calls
      | Some c =>
          let '(users', c') := step users c in
          run schedule' users' (<[i := c']> calls)
      end
  end.

Definition succeeded (c : call) : bool :=
  match callPC c with
  | Returned (Ok _) => true
  | _ => false
  end.

Definition conflicted (c : call) : bool :=
  match callPC c with
  | Returned (Err (AppErr e)) => bool_decide (Type_ e = ErrorTypeConflict)
  | _ => false
  end.

End Concurrent.

(** ** main.go: [getEnv] *)

(** [os.Getenv] over the variables that are set: the value of [key], the
    empty string when [key] is not set. *)
Definition Getenv (environ : gmap string string) (key : string) : string :=
  default "" (environ !! key).

Definition getEnv (environ : gmap string string) (key defaultValue : string)
  : string :=
  let value := Getenv environ key in
  if bool_decide (value ≠ "") then value else defaultValue.

(** The address that [main] gives the server: [HOST] and [PORT] of the
    environment, with the defaults [localhost] and [8080], formatted as
    [%s:%s]. *)
Definition defaultPort : string := "8080".
Definition defaultHost : string := "localhost".

Definition serverAddr (environ : gmap string string) : string :=
  let port := getEnv environ "PORT" defaultPort in
  let host := getEnv environ "HOST" defaultHost in
  host +:+ ":" +:+ port.

(** ** Further vocabulary of the statements *)

(** No stored timestamp is ahead of the clock reading [t], and no record was
    updated before it was created. *)
Definition timely (t : Time) (users : gmap string User) : Prop :=
  ∀ id u, users !! id = Some u → CreatedAt u ≤ UpdatedAt u ∧ UpdatedAt u ≤ t.

(** A call that waits for the write lock holds a valid user. *)
Definition holdsValid (c : Concurrent.call) : Prop :=
  match Concurrent.callPC c with
  | Concurrent.AtInsert user => Validate user = None
  | _ => True
  end.

(** How far a call has come: 0 before its scan, 1 between the scan and the
    insertion, 2 once it has returned. *)
Definition stage (c : Concurrent.call) : nat :=
  match Concurrent.callPC c with
  | Concurrent.AtCheck => 0
  | Concurrent.AtInsert _ => 1
  | Concurrent.Returned _ => 2
  end.

(** A call that has not failed and, if it waits for the write lock, holds a
    user with the email it was called with. *)
Definition onTrack (c : Concurrent.call) : Prop :=
  match Concurrent.callPC c with
  | Concurrent.AtCheck => True
  | Concurrent.AtInsert user => Email user = Concurrent.callEmail c
  | Concurrent.Returned (Ok _) => True
  | Concurrent.Returned (Err _) => False
  end.

(** What the calls were called with, and that no stored user and no other
    call has the email of a call that has not inserted yet. *)
Definition raceFree (users : gmap string User) (calls : list Concurrent.call)
  : Prop :=
  Forall (λ c, Concurrent.callName c ≠ ""
               ∧ isValidEmail (Concurrent.callEmail c) = true
               ∧ onTrack c) calls
  ∧ NoDup (Concurrent.callEmail <$> calls)
  ∧ ∀ (i : nat) (c : Concurrent.call) (id : string) (u : User),
      calls !! i = Some c → (stage c < 2)%nat → users !! id = Some u →
      Email u ≠ Concurrent.callEmail c.

(** The kinds of error that the in-memory service constructs. *)
Definition serviceError (err : error) : Prop :=
  ∃ e : AppError,
    err = AppErr e
    ∧ (Type_ e = ErrorTypeValidation ∨ Type_ e = ErrorTypeNotFound
       ∨ Type_ e = ErrorTypeConflict).

(** The statuses that the handlers write for the in-memory service. *)
Definition expectedStatuses : list Z :=
  [StatusOK; StatusCreated; StatusNoContent; StatusBadRequest;
   StatusNotFound; StatusMethodNotAllowed; StatusConflict].

(** The messages of the plain error responses that the handlers write. *)
Definition plainMessages : list string :=
  ["method not allowed"; "invalid JSON body"; "internal server error"].

(** A JSON decoder that reads the same name and email from every body, for
    the examples. *)
Definition fixedJSON (name email : string)
  : string → option (string * string) := λ _, Some (name, email).

(** * Proofs *)

(** Linear arithmetic with [mod] by a constant. *)
Ltac mod_lia :=
  cbn [Z.pow Z.pow_pos Pos.iter Z.mul Pos.mul] in *;
  Z.div_mod_to_equations; lia.

(** ** Runes and bytes *)

Lemma byteval_range (c : ascii) : 0 ≤ GoString.byteval c < 256.
Proof.
  unfold GoString.byteval.
  pose proof (N_ascii_bounded c). lia.
Qed.

Lemma byteval_inj (c d : ascii) :
  GoString.byteval c = GoString.byteval d → c = d.
Proof.
  unfold GoString.byteval. intros Hcd.
  apply N2Z.inj in Hcd.
  rewrite <- (ascii_N_embedding c), <- (ascii_N_embedding d).
  now f_equal.
Qed.

(** Bits set only below position [k] and bits set only from [k] on do not
    meet, so [lor] adds. *)
Lemma lor_disjoint_add (k x b : Z) :
  0 ≤ k → x mod 2 ^ k = 0 → 0 ≤ b < 2 ^ k → Z.lor x b = x + b.
Proof.
  intros Hk Hx Hb. symmetry. apply Z.add_nocarry_lor.
  apply Z.bits_inj'. intros n Hn.
  rewrite Z.land_spec, Z.bits_0.
  destruct (Z.lt_ge_cases n k) as [Hlt | Hge].
  - rewrite <- (Z.mod_pow2_bits_low x k n) by lia.
    rewrite Hx, Z.bits_0. reflexivity.
  - rewrite <- (Z.mod_small b (2 ^ k)) by lia.
    rewrite Z.mod_pow2_bits_high by lia.
    apply andb_false_r.
Qed.

Lemma land_31 (x : Z) : Z.land x 31 = x mod 32.
Proof. change 31 with (Z.ones 5). now rewrite Z.land_ones by lia. Qed.

Lemma land_15 (x : Z) : Z.land x 15 = x mod 16.
Proof. change 15 with (Z.ones 4). now rewrite Z.land_ones by lia. Qed.

Lemma land_7 (x : Z) : Z.land x 7 = x mod 8.
Proof. change 7 with (Z.ones 3). now rewrite Z.land_ones by lia. Qed.

Lemma land_63 (x : Z) : Z.land x 63 = x mod 64.
Proof. change 63 with (Z.ones 6). now rewrite Z.land_ones by lia. Qed.

(** What [acceptRange] accepts: a leading byte from 194 on, and second bytes
    that are continuation bytes. *)
Lemma acceptRange_Some (s0 sz lo hi : Z) :
  GoString.acceptRange s0 = Some (sz, lo, hi) →
  194 ≤ s0 ≤ 244 ∧ 128 ≤ lo ∧ hi ≤ 191 ∧
  ((sz = 2 ∧ s0 ≤ 223) ∨ (sz = 3 ∧ 224 ≤ s0 ≤ 239 ∧ (s0 = 224 → 160 ≤ lo))
   ∨ (sz = 4 ∧ 240 ≤ s0 ∧ (s0 = 240 → 144 ≤ lo))).
Proof.
  unfold GoString.acceptRange, GoString.locb, GoString.hicb.
  repeat match goal with
         | |- context [if ?b then _ else _] => destruct b eqn:?
         end;
    intros [= <- <- <-] || intros [=]; lia.
Qed.

(** The two-, three- and four-byte values that [decodeRune] assembles are
    not below 128. *)
Lemma assemble2 (s0 s1 : Z) :
  194 ≤ s0 ≤ 223 →
  128 ≤ Z.lor (Z.shiftl (Z.land s0 31) 6) (Z.land s1 63).
Proof.
  intros H0. rewrite land_31, land_63, Z.shiftl_mul_pow2 by lia.
  rewrite (lor_disjoint_add 6); mod_lia.
Qed.

Lemma assemble3 (s0 s1 s2 : Z) :
  224 ≤ s0 ≤ 239 → 128 ≤ s1 ≤ 191 → (s0 = 224 → 160 ≤ s1) →
  128 ≤ Z.lor (Z.lor (Z.shiftl (Z.land s0 15) 12) (Z.shiftl (Z.land s1 63) 6))
              (Z.land s2 63).
Proof.
  intros H0 H1 H01.
  rewrite land_15, !land_63, !Z.shiftl_mul_pow2 by lia.
  rewrite (lor_disjoint_add 12 (s0 mod 16 * 2 ^ 12)) by mod_lia.
  rewrite (lor_disjoint_add 6); mod_lia.
Qed.

Lemma assemble4 (s0 s1 s2 s3 : Z) :
  240 ≤ s0 ≤ 244 → 128 ≤ s1 ≤ 191 → (s0 = 240 → 144 ≤ s1) →
  128 ≤ Z.lor (Z.lor (Z.lor (Z.shiftl (Z.land s0 7) 18)
                            (Z.shiftl (Z.land s1 63) 12))
                     (Z.shiftl (Z.land s2 63) 6))
              (Z.land s3 63).
Proof.
  intros H0 H1 H01.
  rewrite land_7, !land_63, !Z.shiftl_mul_pow2 by lia.
  rewrite (lor_disjoint_add 18 (s0 mod 8 * 2 ^ 18)) by mod_lia.
  rewrite (lor_disjoint_add 12 _ (s2 mod 64 * 2 ^ 6)) by mod_lia.
  rewrite (lor_disjoint_add 6); mod_lia.
Qed.

(** The first rune of a non-empty string is ['@'] exactly when its first byte
    is, and the bytes of the rune after the first are continuation bytes. *)
Lemma decodeRune_cons (c : ascii) (t : list ascii) (r : Z) (w : nat) :
  GoString.decodeRune (c :: t) = (r, w) →
  (r =? at_sign) = (GoString.byteval c =? at_sign)
  ∧ ∀ j, (0 < j < w)%nat → 128 ≤ GoString.byteAt (c :: t) j.
Proof.
  unfold GoString.decodeRune.
  assert ((Z.of_nat (length (c :: t)) <? 1) = false) as ->
    by (apply Z.ltb_ge; cbn [length]; lia).
  change (GoString.byteAt (c :: t) 0) with (GoString.byteval c).
  pose proof (byteval_range c) as Hc.
  set (n := Z.of_nat (length (c :: t))).
  set (s0 := GoString.byteval c) in *.
  set (s1 := GoString.byteAt (c :: t) 1).
  set (s2 := GoString.byteAt (c :: t) 2).
  set (s3 := GoString.byteAt (c :: t) 3).
  unfold at_sign, GoString.RuneError.
  destruct (GoString.acceptRange s0) as [[[sz lo] hi]|] eqn:Hacc.
  - apply acceptRange_Some in Hacc as (H0 & Hlo & Hhi & Hsz).
    unfold GoString.locb, GoString.hicb.
    destruct (n <? sz); [intros [= <- <-]; split; [lia | lia] |].
    destruct (s1 <? lo) eqn:E1; cbn [orb]; [intros [= <- <-]; split; lia |].
    destruct (hi <? s1) eqn:E1'; [intros [= <- <-]; split; lia |].
    destruct (sz <=? 2) eqn:Esz2.
    { intros [= <- <-]. pose proof (assemble2 s0 s1). split; [lia |].
      intros j Hj. replace j with 1%nat by lia. fold s1. lia. }
    destruct (s2 <? 128) eqn:E2; cbn [orb]; [intros [= <- <-]; split; lia |].
    destruct (191 <? s2) eqn:E2'; [intros [= <- <-]; split; lia |].
    destruct (sz <=? 3) eqn:Esz3.
    { intros [= <- <-]. pose proof (assemble3 s0 s1 s2). split; [lia |].
      intros j Hj.
      assert (j = 1 ∨ j = 2)%nat as [-> | ->] by lia; [fold s1 | fold s2]; lia. }
    destruct (s3 <? 128) eqn:E3; cbn [orb]; [intros [= <- <-]; split; lia |].
    destruct (191 <? s3) eqn:E3'; [intros [= <- <-]; split; lia |].
    intros [= <- <-]. pose proof (assemble4 s0 s1 s2 s3). split; [lia |].
    intros j Hj.
    assert (j = 1 ∨ j = 2 ∨ j = 3)%nat as [-> | [-> | ->]] by lia;
      [fold s1 | fold s2 | fold s3]; lia.
  - intros [= <- <-]. split; [| lia].
    destruct (s0 <? 128) eqn:E; lia.
Qed.

(** ** The email rule *)

Lemma byteval_at (c : ascii) :
  (GoString.byteval c =? at_sign) = bool_decide (c = "@"%char).
Proof.
  case_bool_decide as H.
  - subst c. reflexivity.
  - apply Z.eqb_neq. intros E. apply H. apply byteval_inj. exact E.
Qed.

Lemma byteval_dot (c : ascii) :
  (GoString.byteval c =? dot) = bool_decide (c = "."%char).
Proof.
  case_bool_decide as H.
  - subst c. reflexivity.
  - apply Z.eqb_neq. intros E. apply H. apply byteval_inj. exact E.
Qed.

(** The first loop sees an ['@'] at exactly the byte indexes that hold one:
    ranging over runes or over bytes makes no difference to it. *)
Lemma findAt_rangeFrom (s : list ascii) :
  ∀ (skip : nat) (i a : Z),
    0 ≤ i →
    (∀ j, (j < skip)%nat → s !! j ≠ Some "@"%char) →
    findAt (GoString.rangeFrom skip i s) a =
      match indexesOf "@" i s with
      | [] => Some a
      | [p] => if a =? -1 then Some p else None
      | _ => None
      end.
Proof.
  induction s as [| c t IH]; intros skip i a Hi Hskip; [reflexivity |].
  cbn [GoString.rangeFrom indexesOf].
  destruct skip as [| k].
  - destruct (GoString.decodeRune (c :: t)) as [r w] eqn:Hdec.
    apply decodeRune_cons in Hdec as [Hr Hcont].
    cbn [findAt]. rewrite Hr, byteval_at.
    assert (∀ j, (j < Nat.pred w)%nat → t !! j ≠ Some "@"%char) as Ht.
    { intros j Hj Hlook.
      assert (0 < S j < w)%nat as Hj' by (clear -Hj; lia).
      specialize (Hcont (S j) Hj').
      unfold GoString.byteAt in Hcont. cbn [nth] in Hcont.
      rewrite (nth_lookup_Some _ _ _ _ Hlook) in Hcont.
      vm_compute in Hcont. apply Hcont. reflexivity. }
    case_bool_decide as Hc.
    + destruct (a =? -1) eqn:Ha; cbn [negb].
      * rewrite (IH (Nat.pred w) (i + 1) i) by (lia || exact Ht).
        assert ((i =? -1) = false) as -> by (apply Z.eqb_neq; lia).
        destruct (indexesOf "@" (i + 1) t) as [| p [| q l]]; reflexivity.
      * destruct (indexesOf "@" (i + 1) t) as [| p l]; reflexivity.
    + apply IH; [lia | exact Ht].
  - assert (c ≠ "@"%char) as Hc.
    { intros ->. apply (Hskip 0%nat); [lia | reflexivity]. }
    rewrite bool_decide_eq_false_2 by exact Hc.
    apply IH; [lia |].
    intros j Hj. apply (Hskip (S j)). lia.
Qed.

Lemma indexesOf_elem (c : ascii) (s : list ascii) :
  ∀ (i p : Z),
    p ∈ indexesOf c i s ↔ ∃ k : nat, p = i + Z.of_nat k ∧ s !! k = Some c.
Proof.
  induction s as [| d t IH]; intros i p; cbn [indexesOf].
  - split; [intros H; inversion H | intros (k & _ & H); discriminate].
  - assert (p ∈ indexesOf c (i + 1) t ↔
            ∃ k : nat, p = i + Z.of_nat (S k) ∧ (d :: t) !! S k = Some c) as Htail.
    { rewrite IH. split; intros (k & -> & Hk); exists k; (split; [lia | exact Hk]). }
    case_bool_decide as Hd.
    + subst d. rewrite elem_of_cons, Htail. split.
      * intros [-> | (k & -> & Hk)]; [exists 0%nat | exists (S k)];
          (split; [lia | assumption || reflexivity]).
      * intros ([| k] & -> & Hk); [left; lia | right; eauto].
    + rewrite Htail. split.
      * intros (k & -> & Hk). eauto.
      * intros ([| k] & -> & Hk); [| eauto].
        cbn in Hk. congruence.
Qed.

Lemma indexesOf_NoDup (c : ascii) (s : list ascii) :
  ∀ i : Z, NoDup (indexesOf c i s).
Proof.
  induction s as [| d t IH]; intros i; cbn [indexesOf]; [constructor |].
  case_bool_decide; [| apply IH].
  constructor; [| apply IH].
  rewrite indexesOf_elem. intros (k & Hk & _). lia.
Qed.

Lemma dotAfter_true (len : Z) (rest : list ascii) :
  ∀ i : Z,
    dotAfter len i rest = true ↔
    ∃ k : nat, rest !! k = Some "."%char ∧ i + Z.of_nat k < len - 1.
Proof.
  induction rest as [| c t IH]; intros i; cbn [dotAfter].
  - split; [discriminate | intros (k & H & _); discriminate].
  - rewrite byteval_dot.
    destruct (bool_decide (c = "."%char) && (i <? len - 1)) eqn:E.
    + apply andb_true_iff in E as [Hc Hi].
      apply bool_decide_eq_true in Hc. subst c.
      split; [intros _ | reflexivity].
      exists 0%nat. split; [reflexivity | lia].
    + rewrite IH. split.
      * intros (k & Hk & Hlt). exists (S k). split; [exact Hk | lia].
      * intros ([| k] & Hk & Hlt).
        -- cbn in Hk. injection Hk as ->.
           rewrite bool_decide_eq_true_2 in E by reflexivity.
           cbn [andb] in E. lia.
        -- exists k. split; [exact Hk | lia].
Qed.

Lemma isValidEmailBytes_true (s : list ascii) :
  isValidEmailBytes s = true ↔
  ∃ i : nat,
    s !! i = Some "@"%char
    ∧ (∀ j : nat, s !! j = Some "@"%char → j = i)
    ∧ i ≠ 0%nat
    ∧ S i ≠ length s
    ∧ ∃ j : nat, (i < j)%nat ∧ (S j < length s)%nat ∧ s !! j = Some "."%char.
Proof.
  unfold isValidEmailBytes, GoString.range.
  rewrite findAt_rangeFrom by (lia || (intros j Hj; lia)).
  pose proof (indexesOf_elem "@" s 0) as Helem.
  pose proof (indexesOf_NoDup "@" s 0) as Hnd.
  destruct (indexesOf "@" 0 s) as [| p [| q l]].
  - cbn. split; [discriminate |].
    intros (i & Hi & _).
    assert (0 + Z.of_nat i ∈ @nil Z) as Hin by (apply Helem; eauto).
    inversion Hin.
  - rewrite Z.eqb_refl. cbv beta iota.
    assert (p ∈ [p]) as Hp by apply list_elem_of_singleton, eq_refl.
    apply Helem in Hp as (k & -> & Hk).
    assert (∀ j : nat, s !! j = Some "@"%char → j = k) as Huniq.
    { intros j Hj.
      assert (0 + Z.of_nat j ∈ [0 + Z.of_nat k]) as Hin by (apply Helem; eauto).
      apply list_elem_of_singleton in Hin. lia. }
    assert (k < length s)%nat as Hlen by (eapply lookup_lt_Some; eauto).
    replace (Z.to_nat (0 + Z.of_nat k + 1)) with (S k) by lia.
    destruct ((0 + Z.of_nat k =? -1) || (0 + Z.of_nat k =? 0)
              || (0 + Z.of_nat k =? Z.of_nat (length s) - 1)) eqn:E.
    + split; [discriminate |].
      intros (i & Hi & _ & Hi0 & Hil & _).
      apply Huniq in Hi. subst i.
      apply orb_true_iff in E as [E | E]; [apply orb_true_iff in E as [E | E] |]; lia.
    + apply orb_false_iff in E as [E E3]. apply orb_false_iff in E as [E1 E2].
      rewrite dotAfter_true. split.
      * intros (d & Hd & Hlt). rewrite lookup_drop in Hd.
        exists k. repeat split; [exact Hk | exact Huniq | lia | lia |].
        exists (S k + d)%nat. repeat split; [lia | lia | exact Hd].
      * intros (i & Hi & _ & _ & _ & j & Hij & Hjl & Hj).
        apply Huniq in Hi. subst i.
        exists (j - S k)%nat. rewrite lookup_drop.
        replace (S k + (j - S k))%nat with j by lia.
        split; [exact Hj | lia].
  - split; [discriminate |].
    intros (i & _ & Huniq & _).
    assert (p = q) as ->.
    { assert (p ∈ p :: q :: l) as Hp by apply list_elem_of_here.
      assert (q ∈ p :: q :: l) as Hq by apply list_elem_of_further, list_elem_of_here.
      apply Helem in Hp as (kp & -> & Hkp). apply Helem in Hq as (kq & -> & Hkq).
      apply Huniq in Hkp, Hkq. lia. }
    apply NoDup_cons in Hnd as [Hnd _]. exfalso. apply Hnd. apply list_elem_of_here.
Qed.

Lemma get_lookup (s : string) :
  ∀ i : nat, String.get i s = list_ascii_of_string s !! i.
Proof.
  induction s as [| c s IH]; intros [| i]; cbn; try reflexivity. apply IH.
Qed.

Lemma length_list_ascii (s : string) :
  length (list_ascii_of_string s) = String.length s.
Proof. induction s as [| c s IH]; cbn; congruence. Qed.

(** Claim C5.  [isValidEmail] accepts a string exactly when it holds one
    ['@'] and no other, that ['@'] is neither its first nor its last
    character, and some ['.'] stands after the ['@'] and before the final
    character. *)
Theorem isValidEmail_rule (email : string) :
  isValidEmail email = true ↔
  ∃ i : nat,
    String.get i email = Some "@"%char
    ∧ (∀ j : nat, String.get j email = Some "@"%char → j = i)
    ∧ i ≠ 0%nat
    ∧ S i ≠ String.length email
    ∧ ∃ j : nat,
        (i < j)%nat ∧ (S j < String.length email)%nat
        ∧ String.get j email = Some "."%char.
Proof.
  unfold isValidEmail. rewrite isValidEmailBytes_true.
  rewrite length_list_ascii.
  split; intros (i & Hi & Hu & H0 & Hl & j & Hij & Hjl & Hj); exists i.
  - rewrite get_lookup. repeat split; try assumption.
    + intros k Hk. apply Hu. now rewrite <- get_lookup.
    + exists j. now rewrite get_lookup.
  - rewrite get_lookup in Hi. repeat split; try assumption.
    + intros k Hk. apply Hu. now rewrite get_lookup.
    + exists j. now rewrite <- get_lookup.
Qed.

(** The table of [TestIsValidEmail], and the emails that the specification
    lists as invalid. *)
Example isValidEmail_table :
  isValidEmail <$>
    ["test@example.com"; "user@mail.example.com"; "testexample.com";
     "test@@example.com"; "test@"; "@example.com"; "test@example";
     "test@example."; "invalid-email"; ""]
  = [true; true; false; false; false; false; false; false; false; false].
Proof. vm_compute. reflexivity. Qed.

(** A rune of several bytes is one iteration of the range loop: here the
    bytes 195 and 169, the encoding of U+00E9, stand at 2 and 3, and the
    ['.'] is at 4.  A byte that starts no encoding is the rune [RuneError]. *)
Example range_multibyte :
  GoString.range ["a"; "@"; "195"; "169"; "."; "f"; "r"]%char
  = [(0, 97); (1, 64); (2, 233); (4, 46); (5, 102); (6, 114)]
  ∧ GoString.range ["a"; "169"; "@"]%char
    = [(0, 97); (1, GoString.RuneError); (2, 64)].
Proof. split; vm_compute; reflexivity. Qed.

(** ** Validation, the scans and [Update] *)

Lemma isValidEmail_empty : isValidEmail "" = false.
Proof. reflexivity. Qed.

Lemma Validate_None (u : User) :
  Validate u = None ↔ Name u ≠ "" ∧ isValidEmail (Email u) = true.
Proof.
  unfold Validate.
  case_bool_decide as Hn; [split; [discriminate | intros [? _]; congruence] |].
  case_bool_decide as He.
  { split; [discriminate |]. intros [_ Hv]. rewrite He in Hv. discriminate. }
  destruct (isValidEmail (Email u)); cbn [negb]; split; try discriminate; auto.
  intros [_ ?]; discriminate.
Qed.

Lemma Validate_Some (u : User) (err : AppError) :
  Validate u = Some err →
  Type_ err = ErrorTypeValidation
  ∧ Field err = (if bool_decide (Name u = "") then "name" else "email").
Proof.
  unfold Validate.
  case_bool_decide; [intros [= <-]; split; reflexivity |].
  case_bool_decide; [intros [= <-]; split; reflexivity |].
  destruct (isValidEmail (Email u)); cbn [negb]; [discriminate |].
  intros [= <-]; split; reflexivity.
Qed.

Lemma checkEmailExists_None (users : gmap string User) (email : string) :
  InMemoryUserService.checkEmailExists users email = None ↔
  ∀ id u, users !! id = Some u → Email u ≠ email.
Proof.
  unfold InMemoryUserService.checkEmailExists.
  destruct (existsb _ _) eqn:E.
  - split; [discriminate |]. intros Hall.
    apply existsb_exists in E as ([id u] & Hin & Hu).
    apply bool_decide_eq_true in Hu.
    apply list_elem_of_In, elem_of_map_to_list in Hin.
    exfalso. eapply Hall; eauto.
  - split; [intros _ | reflexivity]. intros id u Hlook Hu.
    assert (existsb (λ '(_, user), bool_decide (Email user = email))
                    (map_to_list users) = true) as E'.
    { apply existsb_exists. exists (id, u). split.
      - apply list_elem_of_In, elem_of_map_to_list, Hlook.
      - apply bool_decide_eq_true, Hu. }
    congruence.
Qed.

Lemma checkEmailExists_Some (users : gmap string User) (email : string)
    (err : AppError) :
  InMemoryUserService.checkEmailExists users email = Some err ↔
  err = NewConflictError "email already exists"
  ∧ ∃ id u, users !! id = Some u ∧ Email u = email.
Proof.
  destruct (InMemoryUserService.checkEmailExists users email) eqn:E.
  - assert (∃ id u, users !! id = Some u ∧ Email u = email) as Hex.
    { unfold InMemoryUserService.checkEmailExists in E.
      destruct (existsb _ _) eqn:E'; [| discriminate].
      apply existsb_exists in E' as ([id u] & Hin & Hu).
      apply bool_decide_eq_true in Hu.
      apply list_elem_of_In, elem_of_map_to_list in Hin. eauto. }
    unfold InMemoryUserService.checkEmailExists in E.
    destruct (existsb _ _); [| discriminate]. injection E as <-.
    split; [intros [= <-]; auto | intros [-> _]; reflexivity].
  - split; [discriminate |]. intros [_ (id & u & Hlook & Hu)].
    exfalso. eapply checkEmailExists_None; eauto.
Qed.

Lemma emailTakenByOther_true (users : gmap string User) (id email : string) :
  InMemoryUserService.emailTakenByOther users id email = true ↔
  ∃ k u, users !! k = Some u ∧ ID u ≠ id ∧ Email u = email.
Proof.
  unfold InMemoryUserService.emailTakenByOther. rewrite existsb_exists. split.
  - intros ([k u] & Hin & Hu).
    apply andb_true_iff in Hu as [H1 H2].
    apply bool_decide_eq_true in H1, H2.
    apply list_elem_of_In, elem_of_map_to_list in Hin. eauto.
  - intros (k & u & Hlook & H1 & H2). exists (k, u). split.
    + apply list_elem_of_In, elem_of_map_to_list, Hlook.
    + apply andb_true_iff. split; apply bool_decide_eq_true; assumption.
Qed.

(** [Update] does all of it or nothing. *)
Lemma Update_invalid (u : User) (name email : string) (t : Time) :
  name = "" ∨ isValidEmail email = false → Update u name email t = u.
Proof.
  intros H. unfold Update.
  destruct (Validate _) eqn:E; [reflexivity |].
  apply Validate_None in E as [Hn He]. cbn in Hn, He.
  destruct H; congruence.
Qed.

Lemma Update_valid (u : User) (name email : string) (t : Time) :
  name ≠ "" → isValidEmail email = true →
  Update u name email t =
    {| ID := ID u; Name := name; Email := email;
       CreatedAt := CreatedAt u; UpdatedAt := t |}.
Proof.
  intros Hn He. unfold Update.
  destruct (Validate _) eqn:E.
  - assert (Validate {| ID := ""; Name := name; Email := email;
                        CreatedAt := 0; UpdatedAt := 0 |} = None) as E'
      by (apply Validate_None; auto).
    congruence.
  - assert (email ≠ "") as He' by (intros ->; discriminate).
    rewrite !bool_decide_eq_true_2 by assumption. reflexivity.
Qed.

(** ** The consistency of the reachable maps *)

Lemma consistent_empty : consistent ∅.
Proof.
  repeat split; intros ?; intros; simplify_map_eq.
Qed.

(** Storing a valid user under its own id, with an email that no stored user
    holds, keeps the map consistent, also when the id was taken. *)
Lemma consistent_insert_new (users : gmap string User) (user : User) :
  consistent users →
  Validate user = None →
  (∀ id u, users !! id = Some u → Email u ≠ Email user) →
  consistent (<[ID user := user]> users).
Proof.
  intros (Hu & Hk & Hv) Hvalid Hfresh. repeat split.
  - intros id1 id2 u1 u2 H1 H2 He.
    rewrite lookup_insert in H1, H2.
    repeat case_decide; simplify_eq; try reflexivity.
    + exfalso. eapply Hfresh; eauto.
    + exfalso. eapply Hfresh; eauto.
    + eapply Hu; eauto.
  - intros id u H1. rewrite lookup_insert in H1.
    case_decide; simplify_eq; [reflexivity | eauto].
  - intros id u H1. rewrite lookup_insert in H1.
    case_decide; simplify_eq; [assumption | eauto].
Qed.

Lemma consistent_delete (users : gmap string User) (id : string) :
  consistent users → consistent (delete id users).
Proof.
  intros (Hu & Hk & Hv). repeat split.
  - intros id1 id2 u1 u2 H1 H2.
    apply lookup_delete_Some in H1 as [_ H1], H2 as [_ H2]. eauto.
  - intros k u H1. apply lookup_delete_Some in H1 as [_ H1]. eauto.
  - intros k u H1. apply lookup_delete_Some in H1 as [_ H1]. eauto.
Qed.

Lemma consistent_seed (e1 e2 e3 : Env) :
  consistent (InMemoryUserService.NewInMemoryUserService e1 e2 e3).
Proof.
  unfold InMemoryUserService.NewInMemoryUserService,
    InMemoryUserService.seedData.
  cbn [fold_left].
  set (u1 := NewUser e1 _ _). set (u2 := NewUser e2 _ _).
  set (u3 := NewUser e3 _ _).
  assert (∀ id u, <[ID u1 := u1]> (∅ : gmap string User) !! id = Some u → u = u1)
    as H1.
  { intros id u H. rewrite lookup_insert in H. case_decide; simplify_map_eq.
    reflexivity. }
  assert (∀ id u, <[ID u2 := u2]> (<[ID u1 := u1]> (∅ : gmap string User)) !! id
                  = Some u → u = u1 ∨ u = u2) as H2.
  { intros id u H. rewrite lookup_insert in H.
    case_decide; simplify_eq; eauto. }
  apply consistent_insert_new; [apply consistent_insert_new;
    [apply consistent_insert_new; [apply consistent_empty | |] | |] | |].
  - reflexivity.
  - intros id u H. simplify_map_eq.
  - reflexivity.
  - intros id u H. apply H1 in H as ->. discriminate.
  - reflexivity.
  - intros id u H. apply H2 in H as [-> | ->]; discriminate.
Qed.

Lemma consistent_CreateUser (users : gmap string User) (e : Env)
    (name email : string) :
  consistent users →
  consistent (InMemoryUserService.CreateUser users e name email).1.
Proof.
  intros Hc. unfold InMemoryUserService.CreateUser.
  destruct (InMemoryUserService.checkEmailExists users email) eqn:Hchk;
    [exact Hc |].
  destruct (Validate (NewUser e name email)) eqn:Hval; [exact Hc |].
  cbn [fst]. apply consistent_insert_new; [exact Hc | exact Hval |].
  apply checkEmailExists_None. exact Hchk.
Qed.

Lemma consistent_DeleteUser (users : gmap string User) (id : string) :
  consistent users →
  consistent (InMemoryUserService.DeleteUser users id).1.
Proof.
  intros Hc. unfold InMemoryUserService.DeleteUser.
  destruct (users !! id); [apply consistent_delete |]; exact Hc.
Qed.

(** Whatever [UpdateUser] returns, the stored record is what [Update] made
    of it, and that is the old record unless name and email are both valid. *)
Lemma UpdateUser_store (users : gmap string User) (e : Env)
    (id name email : string) :
  (InMemoryUserService.UpdateUser users e id name email).1 = users
  ∨ ∃ user,
      users !! id = Some user
      ∧ name ≠ "" ∧ isValidEmail email = true
      ∧ (email = Email user
         ∨ InMemoryUserService.emailTakenByOther users id email = false)
      ∧ (InMemoryUserService.UpdateUser users e id name email).1
        = <[id := {| ID := ID user; Name := name; Email := email;
                     CreatedAt := CreatedAt user; UpdatedAt := now e |}]> users.
Proof.
  unfold InMemoryUserService.UpdateUser.
  destruct (users !! id) as [user |] eqn:Hlook; [| left; reflexivity].
  destruct (bool_decide (email ≠ "") && bool_decide (email ≠ Email user)
            && InMemoryUserService.emailTakenByOther users id email) eqn:Hconf;
    [left; reflexivity |].
  destruct (decide (name = "")) as [Hn | Hn].
  { left. rewrite Update_invalid by auto.
    rewrite insert_id by exact Hlook. destruct (Validate user); reflexivity. }
  destruct (isValidEmail email) eqn:He.
  2:{ left. rewrite Update_invalid by auto.
      rewrite insert_id by exact Hlook. destruct (Validate user); reflexivity. }
  right. exists user. rewrite Update_valid by assumption.
  repeat split; try assumption.
  - assert (email ≠ "") as He' by (intros ->; discriminate).
    rewrite (bool_decide_eq_true_2 _ He') in Hconf. cbn [andb] in Hconf.
    case_bool_decide as Hd; cbn [andb] in Hconf; [right; exact Hconf |].
    left. destruct (decide (email = Email user)); [assumption | contradiction].
  - destruct (Validate _); reflexivity.
Qed.

Lemma consistent_UpdateUser (users : gmap string User) (e : Env)
    (id name email : string) :
  consistent users →
  consistent (InMemoryUserService.UpdateUser users e id name email).1.
Proof.
  intros Hc.
  destruct (UpdateUser_store users e id name email)
    as [-> | (user & Hlook & Hn & He & Hfree & ->)]; [exact Hc |].
  destruct Hc as (Hu & Hk & Hv).
  assert (∀ k u, users !! k = Some u → k ≠ id → Email u ≠ email) as Hother.
  { intros k u Hku Hne Heq. destruct Hfree as [Hsame | Hfree].
    - apply Hne. eapply Hu; eauto. congruence.
    - assert (InMemoryUserService.emailTakenByOther users id email = true).
      { apply emailTakenByOther_true. exists k, u.
        repeat split; [assumption | | assumption].
        rewrite (Hk _ _ Hku). exact Hne. }
      congruence. }
  repeat split.
  - intros id1 id2 u1 u2 H1 H2 Heq.
    rewrite lookup_insert in H1, H2.
    repeat case_decide; simplify_eq; try reflexivity.
    + exfalso. eapply Hother; eauto.
    + exfalso. eapply Hother; eauto.
    + eapply Hu; eauto.
  - intros k u H1. rewrite lookup_insert in H1.
    case_decide; simplify_eq; [cbn; eauto | eauto].
  - intros k u H1. rewrite lookup_insert in H1.
    case_decide; simplify_eq; [| eauto].
    apply Validate_None. auto.
Qed.

Lemma reachable_consistent (users : gmap string User) :
  reachable users → consistent users.
Proof.
  induction 1.
  - apply consistent_seed.
  - apply consistent_CreateUser. assumption.
  - apply consistent_UpdateUser. assumption.
  - apply consistent_DeleteUser. assumption.
Qed.

(** ** Identifiers *)

Lemma hexDigit_inj (d1 d2 : N) :
  (d1 < 16)%N → (d2 < 16)%N → hexDigit d1 = hexDigit d2 → d1 = d2.
Proof.
  intros H1 H2.
  assert (∀ d, (d < 16)%N → d ∈ (N.of_nat <$> seq 0 16)) as Hall.
  { intros d Hd. apply list_elem_of_fmap. exists (N.to_nat d).
    split; [lia |]. apply elem_of_seq. lia. }
  pose proof (Hall d1 H1) as Hd1. pose proof (Hall d2 H2) as Hd2.
  cbn in Hd1, Hd2.
  repeat (apply elem_of_cons in Hd1 as [-> | Hd1]);
    [.. | inversion Hd1];
    repeat (apply elem_of_cons in Hd2 as [-> | Hd2]);
    try (inversion Hd2; fail);
    vm_compute; intros; congruence.
Qed.

Lemma generateID_inj (b1 b2 : list ascii) :
  generateID b1 = generateID b2 → b1 = b2.
Proof.
  unfold generateID. revert b2.
  induction b1 as [| c1 t1 IH]; intros [| c2 t2]; cbn [hex];
    try discriminate; [reflexivity |].
  intros [= Hhi Hlo Ht].
  pose proof (N_ascii_bounded c1). pose proof (N_ascii_bounded c2).
  apply hexDigit_inj in Hhi; [| apply N.Div0.div_lt_upper_bound; lia ..].
  apply hexDigit_inj in Hlo; [| apply N.mod_upper_bound; lia ..].
  f_equal; [| apply IH, Ht].
  rewrite <- (ascii_N_embedding c1), <- (ascii_N_embedding c2). f_equal.
  rewrite (N.div_mod (N_of_ascii c1) 16), (N.div_mod (N_of_ascii c2) 16) by lia.
  congruence.
Qed.

(** ** Absent ids *)

Lemma DeleteUser_absent_after (users users' : gmap string User) (id : string) :
  InMemoryUserService.DeleteUser users id = (users', None) → users' !! id = None.
Proof.
  unfold InMemoryUserService.DeleteUser.
  destruct (users !! id); intros [= <-]. apply lookup_delete_eq.
Qed.

(** Claim C7.  For an id that the map does not hold, [GetUserByID],
    [UpdateUser] and [DeleteUser] each return the NotFound error and leave
    the map as it is; and once [DeleteUser] has succeeded for an id, a second
    [DeleteUser] of that id returns NotFound. *)
Theorem absent_id_NotFound (users : gmap string User) (e : Env)
    (id name email : string) :
  (users !! id = None →
   InMemoryUserService.GetUserByID users id
     = (users, Err (AppErr (NewNotFoundError "user" id)))
   ∧ InMemoryUserService.UpdateUser users e id name email
     = (users, Err (AppErr (NewNotFoundError "user" id)))
   ∧ InMemoryUserService.DeleteUser users id
     = (users, Some (AppErr (NewNotFoundError "user" id))))
  ∧ (∀ users',
       InMemoryUserService.DeleteUser users id = (users', None) →
       InMemoryUserService.DeleteUser users' id
         = (users', Some (AppErr (NewNotFoundError "user" id))))
  ∧ Type_ (NewNotFoundError "user" id) = ErrorTypeNotFound.
Proof.
  assert (∀ m : gmap string User, m !! id = None →
            InMemoryUserService.DeleteUser m id
            = (m, Some (AppErr (NewNotFoundError "user" id)))) as Hdel.
  { intros m Hm. unfold InMemoryUserService.DeleteUser. now rewrite Hm. }
  split; [| split; [| reflexivity]].
  - intros Habs. repeat split.
    + unfold InMemoryUserService.GetUserByID. now rewrite Habs.
    + unfold InMemoryUserService.UpdateUser. now rewrite Habs.
    + apply Hdel, Habs.
  - intros users' Hfirst. eapply Hdel, DeleteUser_absent_after, Hfirst.
Qed.

Lemma absent_id_NotFound_witness :
  (InMemoryUserService.GetUserByID seeded "non-existing-id"
     = (seeded, Err (AppErr (NewNotFoundError "user" "non-existing-id")))
   ∧ InMemoryUserService.UpdateUser seeded (envOf "004" 2000)
       "non-existing-id" "Ann" "ann@example.com"
     = (seeded, Err (AppErr (NewNotFoundError "user" "non-existing-id")))
   ∧ InMemoryUserService.DeleteUser seeded "non-existing-id"
     = (seeded, Some (AppErr (NewNotFoundError "user" "non-existing-id"))))
  ∧ InMemoryUserService.DeleteUser (delete johnID seeded) johnID
    = (delete johnID seeded, Some (AppErr (NewNotFoundError "user" johnID))).
Proof.
  split.
  - apply (absent_id_NotFound seeded (envOf "004" 2000) "non-existing-id"
             "Ann" "ann@example.com").
    vm_compute. reflexivity.
  - apply (absent_id_NotFound seeded (envOf "004" 2000) johnID "" "").
    vm_compute. reflexivity.
Defined.

(** ** Creating, then reading *)

(** Claim C8.  With a name that is not empty and a valid email that no stored
    user holds, [CreateUser] succeeds, and [GetUserByID] at the id of the
    user it returns gives a user with that name and email whose [CreatedAt]
    and [UpdatedAt] are equal. *)
Theorem CreateUser_then_GetUserByID (users : gmap string User) (e : Env)
    (name email : string) :
  name ≠ "" →
  isValidEmail email = true →
  (∀ id u, users !! id = Some u → Email u ≠ email) →
  ∃ (user : User) (users' : gmap string User),
    InMemoryUserService.CreateUser users e name email = (users', Ok user)
    ∧ ∃ got : User,
        InMemoryUserService.GetUserByID users' (ID user) = (users', Ok got)
        ∧ Name got = name ∧ Email got = email
        ∧ CreatedAt got = UpdatedAt got.
Proof.
  intros Hn He Hfree.
  set (user := NewUser e name email).
  exists user, (<[ID user := user]> users).
  split.
  - unfold InMemoryUserService.CreateUser.
    rewrite (proj2 (checkEmailExists_None users email) Hfree).
    fold user.
    assert (Validate user = None) as -> by (apply Validate_None; auto).
    reflexivity.
  - exists user.
    unfold InMemoryUserService.GetUserByID.
    rewrite lookup_insert_eq. repeat split.
Qed.

Lemma CreateUser_then_GetUserByID_witness :
  ∃ (user : User) (users' : gmap string User),
    InMemoryUserService.CreateUser seeded (envOf "004" 2000)
      "Alice" "alice@example.com" = (users', Ok user)
    ∧ ∃ got : User,
        InMemoryUserService.GetUserByID users' (ID user) = (users', Ok got)
        ∧ Name got = "Alice" ∧ Email got = "alice@example.com"
        ∧ CreatedAt got = UpdatedAt got.
Proof.
  apply (CreateUser_then_GetUserByID seeded (envOf "004" 2000)
           "Alice" "alice@example.com").
  - discriminate.
  - vm_compute. reflexivity.
  - apply checkEmailExists_None. vm_compute. reflexivity.
Defined.

(** ** The seeded map *)

(** Claim C10.  A new service is not empty: when the three ids that
    [seedData] draws differ (the random bytes read do), the map holds exactly
    three users, John Doe, Jane Smith and Bob Johnson with their emails, the
    first [GetUsers] returns these three, and [CreateUser] with any of the
    three emails fails with the Conflict error. *)
Theorem NewInMemoryUserService_seeded (e1 e2 e3 : Env) :
  rnd e1 ≠ rnd e2 → rnd e1 ≠ rnd e3 → rnd e2 ≠ rnd e3 →
  let users := InMemoryUserService.NewInMemoryUserService e1 e2 e3 in
  size users = 3%nat
  ∧ (∃ l : list User,
       InMemoryUserService.GetUsers users = (users, Ok l)
       ∧ length l = 3%nat
       ∧ (λ u, (Name u, Email u)) <$> l
         ≡ₚ [("John Doe", "john.doe@example.com");
             ("Jane Smith", "jane.smith@example.com");
             ("Bob Johnson", "bob.johnson@example.com")])
  ∧ ∀ (e : Env) (name email : string),
      email ∈ ["john.doe@example.com"; "jane.smith@example.com";
               "bob.johnson@example.com"] →
      InMemoryUserService.CreateUser users e name email
      = (users, Err (AppErr (NewConflictError "email already exists")))
        ∧ Type_ (NewConflictError "email already exists") = ErrorTypeConflict.
Proof.
  intros H12 H13 H23 users.
  unfold InMemoryUserService.NewInMemoryUserService,
    InMemoryUserService.seedData in users.
  cbn [fold_left] in users.
  set (u1 := NewUser e1 "John Doe" "john.doe@example.com") in users.
  set (u2 := NewUser e2 "Jane Smith" "jane.smith@example.com") in users.
  set (u3 := NewUser e3 "Bob Johnson" "bob.johnson@example.com") in users.
  assert (ID u1 ≠ ID u2) as N12 by (intros E; apply generateID_inj in E; auto).
  assert (ID u1 ≠ ID u3) as N13 by (intros E; apply generateID_inj in E; auto).
  assert (ID u2 ≠ ID u3) as N23 by (intros E; apply generateID_inj in E; auto).
  assert (map_to_list users ≡ₚ [(ID u3, u3); (ID u2, u2); (ID u1, u1)]) as Hl.
  { subst users.
    rewrite map_to_list_insert by (by simplify_map_eq).
    rewrite map_to_list_insert by (by simplify_map_eq).
    rewrite map_to_list_insert by (by simplify_map_eq).
    now rewrite map_to_list_empty. }
  assert (users !! ID u1 = Some u1) as L1 by (subst users; by simplify_map_eq).
  assert (users !! ID u2 = Some u2) as L2 by (subst users; by simplify_map_eq).
  assert (users !! ID u3 = Some u3) as L3 by (subst users; by simplify_map_eq).
  split; [| split].
  - rewrite <- length_map_to_list. now rewrite Hl.
  - exists (map snd (map_to_list users)). split; [reflexivity |]. split.
    + now rewrite length_map, Hl.
    + change (map snd (map_to_list users)) with (snd <$> map_to_list users).
      rewrite Hl. cbn.
      etransitivity; [apply Permutation_rev |]. reflexivity.
  - intros e name email Hin. split; [| reflexivity].
    unfold InMemoryUserService.CreateUser.
    assert (InMemoryUserService.checkEmailExists users email
            = Some (NewConflictError "email already exists")) as ->; [| reflexivity].
    apply checkEmailExists_Some. split; [reflexivity |].
    repeat (apply elem_of_cons in Hin as [-> | Hin]); [.. | inversion Hin].
    + exists (ID u1), u1. auto.
    + exists (ID u2), u2. auto.
    + exists (ID u3), u3. auto.
Qed.

Lemma NewInMemoryUserService_seeded_witness :
  size seeded = 3%nat
  ∧ (∃ l : list User,
       InMemoryUserService.GetUsers seeded = (seeded, Ok l)
       ∧ length l = 3%nat
       ∧ (λ u, (Name u, Email u)) <$> l
         ≡ₚ [("John Doe", "john.doe@example.com");
             ("Jane Smith", "jane.smith@example.com");
             ("Bob Johnson", "bob.johnson@example.com")])
  ∧ ∀ (e : Env) (name email : string),
      email ∈ ["john.doe@example.com"; "jane.smith@example.com";
               "bob.johnson@example.com"] →
      InMemoryUserService.CreateUser seeded e name email
      = (seeded, Err (AppErr (NewConflictError "email already exists")))
        ∧ Type_ (NewConflictError "email already exists") = ErrorTypeConflict.
Proof.
  apply (NewInMemoryUserService_seeded
           (envOf "001" 1000) (envOf "002" 1001) (envOf "003" 1002));
    vm_compute; discriminate.
Defined.

(** ** Unique emails *)

(** Claim C4.  In every map that calls to [CreateUser], [UpdateUser] and
    [DeleteUser] can leave behind, no two stored users have the same email;
    [CreateUser] with an email that a stored user holds fails with Conflict
    whatever the name, and so does [UpdateUser] with a non-empty email that
    differs from the user's own and that another user holds. *)
Theorem emails_stay_unique (users : gmap string User) :
  reachable users →
  uniqueEmails users
  ∧ (∀ (e : Env) (name email : string),
       (∃ id u, users !! id = Some u ∧ Email u = email) →
       InMemoryUserService.CreateUser users e name email
       = (users, Err (AppErr (NewConflictError "email already exists"))))
  ∧ (∀ (e : Env) (id name email : string) (user : User)
       (id' : string) (other : User),
       users !! id = Some user → email ≠ "" → email ≠ Email user →
       users !! id' = Some other → id' ≠ id → Email other = email →
       InMemoryUserService.UpdateUser users e id name email
       = (users, Err (AppErr (NewConflictError "email already exists"))))
  ∧ Type_ (NewConflictError "email already exists") = ErrorTypeConflict.
Proof.
  intros Hreach.
  destruct (reachable_consistent users Hreach) as (Hu & Hk & Hv).
  split; [exact Hu |]. split; [| split; [| reflexivity]].
  - intros e name email Hheld.
    unfold InMemoryUserService.CreateUser.
    assert (InMemoryUserService.checkEmailExists users email
            = Some (NewConflictError "email already exists")) as ->
      by (apply checkEmailExists_Some; auto).
    reflexivity.
  - intros e id name email user id' other Hlook Hne Hdiff Hlook' Hid' Heq.
    unfold InMemoryUserService.UpdateUser. rewrite Hlook.
    rewrite !bool_decide_eq_true_2 by assumption.
    assert (InMemoryUserService.emailTakenByOther users id email = true) as ->.
    { apply emailTakenByOther_true. exists id', other.
      repeat split; [assumption | | assumption].
      rewrite (Hk _ _ Hlook'). exact Hid'. }
    reflexivity.
Qed.

Lemma emails_stay_unique_witness :
  uniqueEmails afterCalls
  ∧ (∀ (e : Env) (name email : string),
       (∃ id u, afterCalls !! id = Some u ∧ Email u = email) →
       InMemoryUserService.CreateUser afterCalls e name email
       = (afterCalls, Err (AppErr (NewConflictError "email already exists"))))
  ∧ (∀ (e : Env) (id name email : string) (user : User)
       (id' : string) (other : User),
       afterCalls !! id = Some user → email ≠ "" → email ≠ Email user →
       afterCalls !! id' = Some other → id' ≠ id → Email other = email →
       InMemoryUserService.UpdateUser afterCalls e id name email
       = (afterCalls, Err (AppErr (NewConflictError "email already exists"))))
  ∧ Type_ (NewConflictError "email already exists") = ErrorTypeConflict.
Proof.
  apply (emails_stay_unique afterCalls).
  apply reachable_delete, reachable_update, reachable_create, reachable_new.
Defined.

(** Emails are compared as they are: the seeded address with a capital
    letter is another address. *)
Example CreateUser_is_case_sensitive :
  ∃ (user : User) (users' : gmap string User),
    InMemoryUserService.CreateUser seeded (envOf "004" 2000)
      "John Doe" "John.Doe@example.com" = (users', Ok user).
Proof. eexists _, _. vm_compute. reflexivity. Qed.

(** ** Validation errors *)

(** In a consistent map no stored email fails the rule. *)
Lemma invalid_email_not_stored (users : gmap string User) (email : string) :
  consistent users → isValidEmail email = false →
  ∀ id u, users !! id = Some u → Email u ≠ email.
Proof.
  intros (_ & _ & Hv) Hbad id u Hlook Heq.
  apply Hv, Validate_None in Hlook as [_ Hok]. congruence.
Qed.

Lemma Validate_NewUser_Some (e : Env) (name email : string) :
  name = "" ∨ isValidEmail email = false →
  ∃ message,
    Validate (NewUser e name email)
    = Some (NewValidationError
              (if bool_decide (name = "") then "name" else "email") message).
Proof.
  intros Hbad. unfold Validate. cbn [Name Email NewUser].
  case_bool_decide as Hn; [eauto |].
  case_bool_decide as He; [eauto |].
  destruct Hbad as [? | ->]; [contradiction |]. cbn [negb]. eauto.
Qed.

(** Claim C1, as amended.  When the email passed to [CreateUser] is held by
    no stored user, which is so in every reachable map for an email that
    fails the rule, an empty name, or an email that is empty or fails the
    rule, makes [CreateUser] fail with a Validation error that names the
    field, [name] if the name is empty and [email] otherwise, and the map is
    left as it was. *)
Theorem CreateUser_validation (users : gmap string User) (e : Env)
    (name email : string) :
  name = "" ∨ isValidEmail email = false →
  (∀ id u, users !! id = Some u → Email u ≠ email)
  ∨ (reachable users ∧ isValidEmail email = false) →
  ∃ message : string,
    InMemoryUserService.CreateUser users e name email
    = (users,
       Err (AppErr (NewValidationError
                      (if bool_decide (name = "") then "name" else "email")
                      message))).
Proof.
  intros Hbad Hfree.
  assert (∀ id u, users !! id = Some u → Email u ≠ email) as Hfree'.
  { destruct Hfree as [? | [Hr Hinv]]; [assumption |].
    apply invalid_email_not_stored; [apply reachable_consistent |]; assumption. }
  destruct (Validate_NewUser_Some e name email Hbad) as [message Hval].
  exists message. unfold InMemoryUserService.CreateUser.
  rewrite (proj2 (checkEmailExists_None users email) Hfree'), Hval.
  reflexivity.
Qed.

Lemma CreateUser_validation_witness :
  ∃ message : string,
    InMemoryUserService.CreateUser seeded (envOf "004" 2000)
      "Test User" "invalid-email"
    = (seeded, Err (AppErr (NewValidationError "email" message))).
Proof.
  apply (CreateUser_validation seeded (envOf "004" 2000)
           "Test User" "invalid-email").
  - right. vm_compute. reflexivity.
  - right. split; [apply reachable_new | vm_compute; reflexivity].
Defined.

(** Claim C1 fails as stated.  With an empty name and the email of a seeded
    user, [CreateUser] reports the Conflict, not a Validation error; and
    [UpdateUser] with an empty name returns no error at all. *)
Lemma CreateUser_conflict_before_validation :
  InMemoryUserService.CreateUser seeded (envOf "004" 2000)
    "" "john.doe@example.com"
  = (seeded, Err (AppErr (NewConflictError "email already exists")))
  ∧ (¬ ∃ err : AppError,
         (InMemoryUserService.CreateUser seeded (envOf "004" 2000)
            "" "john.doe@example.com").2 = Err (AppErr err)
         ∧ Type_ err = ErrorTypeValidation)
  ∧ ∃ user : User,
      (InMemoryUserService.UpdateUser seeded (envOf "004" 2000) johnID
         "" "new@example.com").2 = Ok user.
Proof.
  assert (InMemoryUserService.CreateUser seeded (envOf "004" 2000)
            "" "john.doe@example.com"
          = (seeded, Err (AppErr (NewConflictError "email already exists"))))
    as Heq by (vm_compute; reflexivity).
  split; [exact Heq |]. split.
  - rewrite Heq. intros (err & [= <-] & Hty). discriminate Hty.
  - eexists. vm_compute. reflexivity.
Qed.

(** ** Updates *)

(** An [UpdateUser] that returns an error has not changed the map. *)
Lemma UpdateUser_Err_unchanged (users : gmap string User) (e : Env)
    (id name email : string) (err : error) :
  (InMemoryUserService.UpdateUser users e id name email).2 = Err err →
  (InMemoryUserService.UpdateUser users e id name email).1 = users.
Proof.
  destruct (UpdateUser_store users e id name email)
    as [Hsame | (user & Hlook & Hn & He & _ & _)]; [intros _; exact Hsame |].
  unfold InMemoryUserService.UpdateUser. rewrite Hlook.
  destruct (_ && _); [reflexivity |].
  rewrite Update_valid by assumption.
  assert (Validate {| ID := ID user; Name := name; Email := email;
                      CreatedAt := CreatedAt user; UpdatedAt := now e |} = None)
    as -> by (apply Validate_None; auto).
  discriminate.
Qed.

(** On a map whose users are all valid, so on every reachable one,
    [UpdateUser] returns no Validation error: what [Update] rejects it drops
    without a word, and the [Validate] that follows sees a valid record. *)
Lemma UpdateUser_no_validation_error (users : gmap string User) (e : Env)
    (id name email : string) (err : AppError) :
  allValid users →
  (InMemoryUserService.UpdateUser users e id name email).2 = Err (AppErr err) →
  Type_ err ≠ ErrorTypeValidation.
Proof.
  intros Hv. unfold InMemoryUserService.UpdateUser.
  destruct (users !! id) as [user |] eqn:Hlook; [| intros [= <-]; discriminate].
  destruct (_ && _); [intros [= <-]; discriminate |].
  assert (Validate (Update user name email (now e)) = None) as ->;
    [| discriminate].
  destruct (decide (name = "")) as [Hn | Hn];
    [rewrite Update_invalid by auto; eauto |].
  destruct (isValidEmail email) eqn:He;
    [| rewrite Update_invalid by auto; eauto].
  rewrite Update_valid by assumption. apply Validate_None. auto.
Qed.

(** An [UpdateUser] whose validation fails, the record asked for being one
    that [Validate] rejects, has not changed the map either, whatever it
    returns: the conflict check changes nothing, and [Update] assigns only
    when the name is not empty and the email passes the rule, in which case
    the record asked for is valid. *)
Lemma UpdateUser_invalid_unchanged (users : gmap string User) (e : Env)
    (id name email : string) (user : User) :
  users !! id = Some user →
  Validate (requested user name email) ≠ None →
  (InMemoryUserService.UpdateUser users e id name email).1 = users.
Proof.
  intros Hlook Hbad. unfold InMemoryUserService.UpdateUser. rewrite Hlook.
  destruct (_ && _); [reflexivity |].
  assert (Update user name email (now e) = user) as ->.
  { destruct (decide (name = "")) as [Hn | Hn];
      [apply Update_invalid; auto |].
    destruct (isValidEmail email) eqn:He; [| apply Update_invalid; auto].
    exfalso. apply Hbad. apply Validate_None. unfold requested. cbn.
    assert (email ≠ "") as He' by (intros ->; discriminate).
    rewrite !bool_decide_eq_true_2 by assumption. auto. }
  rewrite insert_id by exact Hlook.
  destruct (Validate user); reflexivity.
Qed.

(** Claim C3, as amended.  A call to [UpdateUser] on a stored user whose
    validation fails, the record asked for (the stored one with every
    supplied field that is not empty in place) being rejected by
    [Validate], leaves the stored record and the whole map exactly as they
    were, and so does every call that returns an error: no field is assigned
    before the check, and none is left half applied. *)
Theorem UpdateUser_rejected_changes_nothing (users : gmap string User)
    (e : Env) (id name email : string) (user : User) :
  users !! id = Some user →
  Validate (requested user name email) ≠ None
  ∨ (∃ err : error,
       (InMemoryUserService.UpdateUser users e id name email).2 = Err err) →
  (InMemoryUserService.UpdateUser users e id name email).1 = users
  ∧ (InMemoryUserService.UpdateUser users e id name email).1 !! id
    = Some user.
Proof.
  intros Hlook Hrej.
  assert ((InMemoryUserService.UpdateUser users e id name email).1 = users)
    as Hsame.
  { destruct Hrej as [Hbad | [err Herr]].
    - eapply UpdateUser_invalid_unchanged; eassumption.
    - eapply UpdateUser_Err_unchanged, Herr. }
  split; [exact Hsame | rewrite Hsame; exact Hlook].
Qed.

Lemma UpdateUser_rejected_changes_nothing_witness :
  (InMemoryUserService.UpdateUser seeded (envOf "004" 2000) johnID
     "Johnny" "invalid-email").1 = seeded
  ∧ (InMemoryUserService.UpdateUser seeded (envOf "004" 2000) johnID
       "Johnny" "invalid-email").1 !! johnID
    = Some {| ID := johnID; Name := "John Doe";
              Email := "john.doe@example.com";
              CreatedAt := 1000; UpdatedAt := 1000 |}.
Proof.
  apply (UpdateUser_rejected_changes_nothing seeded (envOf "004" 2000) johnID
           "Johnny" "invalid-email").
  - vm_compute. reflexivity.
  - left. vm_compute. discriminate.
Defined.

(** Claim C3 fails as stated: there is no call to [UpdateUser] on a stored
    user whose validation fails, be it that the record asked for is one that
    [Validate] rejects or that the call returns a Validation error, and that
    leaves the stored record changed. *)
Lemma no_partial_update :
  ¬ ∃ (users : gmap string User) (e : Env) (id name email : string)
      (user : User),
      users !! id = Some user
      ∧ (Validate (requested user name email) ≠ None
         ∨ ∃ err : AppError,
             (InMemoryUserService.UpdateUser users e id name email).2
             = Err (AppErr err)
             ∧ Type_ err = ErrorTypeValidation)
      ∧ (InMemoryUserService.UpdateUser users e id name email).1 !! id
        ≠ Some user.
Proof.
  intros (users & e & id & name & email & user & Hlook & Hfail & Hch).
  apply Hch.
  destruct Hfail as [Hbad | (err & Herr & _)].
  - now rewrite (UpdateUser_invalid_unchanged users e id name email user).
  - now rewrite (UpdateUser_Err_unchanged users e id name email _ Herr).
Qed.

(** With no email, [Update] finds its temporary user invalid and returns
    before it has assigned anything. *)
Lemma Update_without_email (u : User) (name : string) (t : Time) :
  Update u name "" t = u.
Proof. apply Update_invalid. right. reflexivity. Qed.

Lemma UpdateUser_without_email (users : gmap string User) (e : Env)
    (id name : string) (user : User) :
  users !! id = Some user → Validate user = None →
  InMemoryUserService.UpdateUser users e id name "" = (users, Ok user).
Proof.
  intros Hlook Hval. unfold InMemoryUserService.UpdateUser.
  rewrite Hlook. rewrite bool_decide_eq_false_2 by (intros H; now apply H).
  cbn [andb]. rewrite Update_without_email, Hval.
  now rewrite insert_id.
Qed.

(** What does work: with the user's own email passed along, the name is
    replaced, the email stays and [UpdatedAt] is the clock's reading. *)
Lemma UpdateUser_with_own_email (users : gmap string User) (e : Env)
    (id name : string) (user : User) :
  users !! id = Some user → Validate user = None → name ≠ "" →
  InMemoryUserService.UpdateUser users e id name (Email user)
  = (<[id := {| ID := ID user; Name := name; Email := Email user;
                CreatedAt := CreatedAt user; UpdatedAt := now e |}]> users,
     Ok {| ID := ID user; Name := name; Email := Email user;
           CreatedAt := CreatedAt user; UpdatedAt := now e |}).
Proof.
  intros Hlook Hval Hn. apply Validate_None in Hval as [_ He].
  unfold InMemoryUserService.UpdateUser. rewrite Hlook.
  rewrite (bool_decide_eq_false_2 (Email user ≠ Email user))
    by (intros Hne; now apply Hne).
  rewrite andb_false_r. cbn [andb].
  rewrite Update_valid by assumption.
  assert (Validate {| ID := ID user; Name := name; Email := Email user;
                      CreatedAt := CreatedAt user; UpdatedAt := now e |} = None)
    as -> by (apply Validate_None; auto).
  reflexivity.
Qed.

(** Claim C2, where the code departs from it: asked to rename John Doe to
    Johnny with no email, [UpdateUser] succeeds and has stored nothing; the
    name is still John Doe and [UpdatedAt] is the 1000 of the seeding, although
    the clock reads 2000. *)
Theorem UpdateUser_name_only_is_dropped :
  InMemoryUserService.UpdateUser seeded (envOf "004" 2000) johnID "Johnny" ""
  = (seeded,
     Ok {| ID := johnID; Name := "John Doe"; Email := "john.doe@example.com";
           CreatedAt := 1000; UpdatedAt := 1000 |})
  ∧ seeded !! johnID
    = Some {| ID := johnID; Name := "John Doe";
              Email := "john.doe@example.com";
              CreatedAt := 1000; UpdatedAt := 1000 |}.
Proof. split; vm_compute; reflexivity. Qed.

(** ** Routing *)

Lemma string_strong_ind (P : string → Prop) :
  (∀ s, (∀ t, (String.length t < String.length s)%nat → P t) → P s) →
  ∀ s, P s.
Proof.
  intros Hstep s.
  remember (String.length s) as n eqn:Hn.
  revert s Hn. induction n as [n IH] using lt_wf_ind.
  intros s ->. apply Hstep. intros t Ht. eapply IH; [exact Ht | reflexivity].
Qed.

Lemma cutAtSlash_rest (s seg rest : string) :
  ServeMux.cutAtSlash s = (seg, rest) →
  rest = "" ∨ ∃ rest', rest = String "/" rest'.
Proof.
  revert seg rest. induction s as [| c s IH]; intros seg rest; cbn.
  - intros [= <- <-]. now left.
  - case_bool_decide as Hc.
    + intros [= <- <-]. subst c. right. eauto.
    + destruct (ServeMux.cutAtSlash s) as [seg' rest'].
      intros [= <- <-]. eapply IH. reflexivity.
Qed.

(** No escape straddles the first slash, a slash being no hex digit:
    decoding a path is decoding its first segment and the rest. *)
Lemma unescape_cutAtSlash (s seg rest : string) :
  ServeMux.cutAtSlash s = (seg, rest) →
  URL.unescape s
  = match URL.unescape seg, URL.unescape rest with
    | Some useg, Some urest => Some (useg +:+ urest)
    | _, _ => None
    end.
Proof.
  revert seg rest. induction s as [s IH] using string_strong_ind.
  intros seg rest. destruct s as [| c s1].
  { cbn. intros [= <- <-]. reflexivity. }
  cbn [ServeMux.cutAtSlash].
  case_bool_decide as Hslash.
  { intros [= <- <-]. subst c. cbn [URL.unescape].
    destruct (bool_decide _); [destruct s1 as [| ? [| ? ?]]; try reflexivity;
      destruct (_ && _); [destruct (_ <$> _) |]; reflexivity |].
    destruct (_ <$> _); reflexivity. }
  destruct (ServeMux.cutAtSlash s1) as [seg1 rest1] eqn:Hcut1.
  intros [= <- <-].
  cbn [URL.unescape]. case_bool_decide as Hpct.
  - subst c. destruct s1 as [| a [| b s3]].
    + cbn in Hcut1. injection Hcut1 as <- <-. reflexivity.
    + cbn in Hcut1. case_bool_decide.
      * injection Hcut1 as <- <-. reflexivity.
      * injection Hcut1 as <- <-. reflexivity.
    + cbn [ServeMux.cutAtSlash] in Hcut1.
      case_bool_decide as Ha.
      { injection Hcut1 as <- <-. subst a. reflexivity. }
      case_bool_decide as Hb.
      { injection Hcut1 as <- <-. subst b.
        rewrite andb_false_r. reflexivity. }
      destruct (ServeMux.cutAtSlash s3) as [seg3 rest3] eqn:Hcut3.
      injection Hcut1 as <- <-.
      destruct (_ && _); [| reflexivity].
      rewrite (IH s3 ltac:(cbn; lia) seg3 rest3 Hcut3).
      destruct (URL.unescape seg3), (URL.unescape rest3); reflexivity.
  - rewrite (IH s1 ltac:(cbn; lia) seg1 rest1 Hcut1).
    destruct (URL.unescape seg1), (URL.unescape rest1); reflexivity.
Qed.

Lemma unescape_slash (s : string) :
  URL.unescape (String "/" s) = String "/" <$> URL.unescape s.
Proof. reflexivity. Qed.

(** What the mux reads off a parsed path and what the handlers read: the
    decoded path is the slash, the first segment as the mux decodes it, and
    the decoding of the rest, which is empty or starts with a slash. *)
Lemma firstSegment_parsed (escapedPath path seg rest : string) :
  parsed escapedPath path = true →
  escapedPath ≠ "/" →
  ServeMux.firstSegment escapedPath = (seg, rest) →
  ∃ urest : string,
    URL.unescape rest = Some urest
    ∧ path = "/" +:+ seg +:+ urest
    ∧ (urest = "" ∨ ∃ u, urest = String "/" u).
Proof.
  unfold parsed. intros Hp Hne.
  apply andb_true_iff in Hp as [Hslash Hdec].
  apply bool_decide_eq_true in Hdec.
  destruct escapedPath as [| c s]; [discriminate |].
  cbn in Hslash. rewrite andb_true_r in Hslash.
  apply bool_decide_eq_true in Hslash. subst c.
  unfold ServeMux.firstSegment.
  rewrite bool_decide_eq_false_2 by exact Hne.
  cbn [GoString.dropBytes].
  destruct (ServeMux.cutAtSlash s) as [seg0 rest0] eqn:Hcut.
  intros [= <- <-].
  rewrite unescape_slash, (unescape_cutAtSlash s seg0 rest0 Hcut) in Hdec.
  unfold ServeMux.pathUnescape.
  destruct (URL.unescape seg0) as [useg |]; [| discriminate].
  destruct (URL.unescape rest0) as [urest |] eqn:Hrest; [| discriminate].
  injection Hdec as <-. exists urest.
  split; [reflexivity |]. split; [reflexivity |].
  destruct (cutAtSlash_rest s seg0 rest0 Hcut) as [-> | [rest' ->]].
  - injection Hrest as <-. now left.
  - rewrite unescape_slash in Hrest.
    destruct (URL.unescape rest') as [u |]; [| discriminate].
    injection Hrest as <-. right. eauto.
Qed.

(** The handlers see what the mux matched: a request that the patterns
    [/users] and [/users/] match has the decoded path [/users] or one that
    starts with [/users/], and one that [/health] matches has the decoded
    path [/health]. *)
Lemma matchPath_UserHandler (escapedPath path : string) :
  parsed escapedPath path = true →
  ServeMux.matchPath escapedPath = ServeMux.UserHandler →
  path = "/users" ∨ ∃ u, path = "/users/" +:+ u.
Proof.
  intros Hp. unfold ServeMux.matchPath.
  destruct (decide (escapedPath = "/")) as [-> | Hne]; [discriminate |].
  destruct (ServeMux.firstSegment escapedPath) as [seg rest] eqn:Hseg.
  destruct (firstSegment_parsed _ _ _ _ Hp Hne Hseg)
    as (urest & _ & -> & Hrest).
  case_bool_decide as Hu; [| destruct (_ && _); discriminate].
  intros _. subst seg.
  destruct Hrest as [-> | [u ->]]; [left | right; exists u]; reflexivity.
Qed.

Lemma matchPath_HealthHandler (escapedPath path : string) :
  parsed escapedPath path = true →
  ServeMux.matchPath escapedPath = ServeMux.HealthHandler →
  path = "/health".
Proof.
  intros Hp. unfold ServeMux.matchPath.
  destruct (decide (escapedPath = "/")) as [-> | Hne]; [discriminate |].
  destruct (ServeMux.firstSegment escapedPath) as [seg rest] eqn:Hseg.
  destruct (firstSegment_parsed _ _ _ _ Hp Hne Hseg)
    as (urest & Hdec & -> & _).
  case_bool_decide as Hu; [discriminate |].
  destruct (bool_decide (seg = "health") && bool_decide (rest = "")) eqn:Hh;
    [| discriminate].
  intros _. apply andb_true_iff in Hh as [Hs Hr].
  apply bool_decide_eq_true in Hs, Hr. subst seg rest.
  injection Hdec as <-. reflexivity.
Qed.

Lemma matchPath_no_redirect (escapedPath path : string) :
  ServeMux.matchPath escapedPath ≠ ServeMux.RedirectHandler path.
Proof.
  unfold ServeMux.matchPath.
  destruct (ServeMux.firstSegment escapedPath) as [seg rest].
  destruct (bool_decide _); [discriminate |].
  destruct (_ && _); discriminate.
Qed.

Lemma HasPrefix_cons (s prefix : string) (p : ascii) :
  GoString.HasPrefix s (String p prefix) = true →
  ∃ s' : string, s = String p s' ∧ GoString.HasPrefix s' prefix = true.
Proof.
  destruct s as [| c s']; cbn [GoString.HasPrefix]; [discriminate |].
  intros Hp. apply andb_true_iff in Hp as [Hc Hp].
  apply bool_decide_eq_true in Hc. subst c. eauto.
Qed.

Lemma HasPrefix_users (path : string) :
  GoString.HasPrefix path "/users/" = true →
  ∃ id : string, path = "/users/" +:+ id.
Proof.
  intros Hp.
  do 7 (apply HasPrefix_cons in Hp as (? & -> & Hp)).
  eexists. reflexivity.
Qed.

(** A path that arrives with [/users/] in front is matched by the pattern
    [/users/]. *)
Lemma matchPath_users_prefix (escapedPath : string) :
  GoString.HasPrefix escapedPath "/users/" = true →
  ServeMux.matchPath escapedPath = ServeMux.UserHandler.
Proof.
  intros Hp. apply HasPrefix_users in Hp as [id ->].
  unfold ServeMux.matchPath, ServeMux.firstSegment.
  rewrite (bool_decide_eq_false_2 ("/users/" +:+ id = "/")) by discriminate.
  change (ServeMux.cutAtSlash (GoString.dropBytes 1 ("/users/" +:+ id)))
    with ("users", String "/" id).
  reflexivity.
Qed.

Lemma Request_parsed (r : Request) :
  GoString.HasPrefix (EscapedPath r) "/" = true
  ∧ URL.unescape (EscapedPath r) = Some (URLPath r).
Proof.
  pose proof (URL_parsed r) as Hp. unfold parsed in Hp.
  apply andb_true_iff in Hp as [Hslash Hdec].
  apply bool_decide_eq_true in Hdec. auto.
Qed.

(** The mux redirects no request whose path is in canonical form. *)
Lemma findHandler_canonical (r : Request) :
  ServeMux.cleanPath (EscapedPath r) = EscapedPath r →
  ServeMux.findHandler r = ServeMux.matchPath (EscapedPath r).
Proof.
  intros Hclean. unfold ServeMux.findHandler.
  destruct (bool_decide (Method r = MethodConnect)); [reflexivity |].
  rewrite Hclean.
  rewrite bool_decide_eq_false_2 by (intros Hne; now apply Hne).
  reflexivity.
Qed.

(** What the mux finds, for every request, and the decoded path that the
    handler it finds is then given to read. *)
Lemma findHandler_cases (r : Request) :
  (Method r ≠ MethodConnect
   ∧ ServeMux.cleanPath (EscapedPath r) ≠ EscapedPath r
   ∧ ServeMux.findHandler r
     = ServeMux.RedirectHandler (ServeMux.cleanPath (EscapedPath r)))
  ∨ (ServeMux.findHandler r = ServeMux.UserHandler
     ∧ (URLPath r = "/users" ∨ ∃ u, URLPath r = "/users/" +:+ u))
  ∨ (ServeMux.findHandler r = ServeMux.HealthHandler
     ∧ URLPath r = "/health")
  ∨ ServeMux.findHandler r = ServeMux.RootHandler.
Proof.
  assert (∀ h, ServeMux.matchPath (EscapedPath r) = h →
            (h = ServeMux.UserHandler
             ∧ (URLPath r = "/users" ∨ ∃ u, URLPath r = "/users/" +:+ u))
            ∨ (h = ServeMux.HealthHandler ∧ URLPath r = "/health")
            ∨ h = ServeMux.RootHandler) as Hmatch.
  { intros h Hh. destruct h as [path | | |].
    - exfalso. eapply matchPath_no_redirect, Hh.
    - left. split; [reflexivity |].
      eapply matchPath_UserHandler; [apply URL_parsed | exact Hh].
    - right; left. split; [reflexivity |].
      eapply matchPath_HealthHandler; [apply URL_parsed | exact Hh].
    - right; right. reflexivity. }
  unfold ServeMux.findHandler.
  case_bool_decide as Hm; [right; apply Hmatch; reflexivity |].
  case_bool_decide as Hclean.
  - left. auto.
  - right. rewrite Hclean.
    apply Hmatch. reflexivity.
Qed.

Section Routing.

Variable decodeCreateUserRequest : string → option (string * string).
Variable decodeUpdateUserRequest : string → option (string * string).
Context {S : Type} `{UserService S}.

(** The two shapes of path that the mux hands to [ServeHTTP], as [ServeHTTP]
    reads them. *)
Lemma ServeHTTP_users (service : S) (e : Env) (r : Request) :
  URLPath r = "/users" ∨ URLPath r = "/users/" →
  ServeHTTP decodeCreateUserRequest decodeUpdateUserRequest service e r
  = if bool_decide (Method r = MethodGet) then handleGetUsers service
    else if bool_decide (Method r = MethodPost) then
      handleCreateUser decodeCreateUserRequest service e r
    else (service,
          writeErrorResponse StatusMethodNotAllowed "method not allowed").
Proof.
  intros Hpath. unfold ServeHTTP.
  destruct Hpath as [-> | ->].
  - change (GoString.TrimPrefix "/users" "/users") with "".
    rewrite (bool_decide_eq_true_2 ("" = "")) by reflexivity.
    reflexivity.
  - change (GoString.TrimPrefix "/users/" "/users") with "/".
    rewrite (bool_decide_eq_true_2 ("/" = "/")) by reflexivity.
    rewrite orb_true_r. reflexivity.
Qed.

Lemma ServeHTTP_user (service : S) (e : Env) (r : Request) (id : string) :
  id ≠ "" → URLPath r = "/users/" +:+ id →
  ServeHTTP decodeCreateUserRequest decodeUpdateUserRequest service e r
  = if bool_decide (Method r = MethodGet) then handleGetUser service id
    else if bool_decide (Method r = MethodPut) then
      handleUpdateUser decodeUpdateUserRequest service e r id
    else if bool_decide (Method r = MethodDelete) then
      handleDeleteUser service id
    else (service,
          writeErrorResponse StatusMethodNotAllowed "method not allowed").
Proof.
  intros Hid Hpath. unfold ServeHTTP. rewrite Hpath.
  change (GoString.TrimPrefix ("/users/" +:+ id) "/users") with (String "/" id).
  change (GoString.HasPrefix (String "/" id) "/") with true.
  change (GoString.TrimPrefix (String "/" id) "/") with id.
  rewrite (bool_decide_eq_false_2 (String "/" id = "")) by discriminate.
  rewrite (bool_decide_eq_false_2 (String "/" id = "/"))
    by (intros [= ?]; contradiction).
  reflexivity.
Qed.

(** A request that arrives for [/users] or [/users/] is served by
    [ServeHTTP] as one for the collection. *)
Lemma mux_users (service : S) (e : Env) (r : Request) :
  EscapedPath r = "/users" ∨ EscapedPath r = "/users/" →
  mux decodeCreateUserRequest decodeUpdateUserRequest service e r
  = handled
      (if bool_decide (Method r = MethodGet) then handleGetUsers service
       else if bool_decide (Method r = MethodPost) then
         handleCreateUser decodeCreateUserRequest service e r
       else (service,
             writeErrorResponse StatusMethodNotAllowed "method not allowed")).
Proof.
  intros Hpath. destruct (Request_parsed r) as [_ Hdec].
  unfold mux.
  rewrite findHandler_canonical
    by (destruct Hpath as [-> | ->]; reflexivity).
  destruct Hpath as [Hpath | Hpath]; rewrite Hpath in Hdec |- *;
    injection Hdec as Hdec.
  - change (ServeMux.matchPath "/users") with ServeMux.UserHandler.
    cbv iota. rewrite ServeHTTP_users by auto. reflexivity.
  - change (ServeMux.matchPath "/users/") with ServeMux.UserHandler.
    cbv iota. rewrite ServeHTTP_users by auto. reflexivity.
Qed.

(** A request that arrives in canonical form with [/users/] in front and
    whose decoded path goes on with [id] is served by [ServeHTTP] as one
    for the user [id]. *)
Lemma mux_user (service : S) (e : Env) (r : Request) (id : string) :
  id ≠ "" → URLPath r = "/users/" +:+ id →
  GoString.HasPrefix (EscapedPath r) "/users/" = true →
  ServeMux.cleanPath (EscapedPath r) = EscapedPath r →
  mux decodeCreateUserRequest decodeUpdateUserRequest service e r
  = handled
      (if bool_decide (Method r = MethodGet) then handleGetUser service id
       else if bool_decide (Method r = MethodPut) then
         handleUpdateUser decodeUpdateUserRequest service e r id
       else if bool_decide (Method r = MethodDelete) then
         handleDeleteUser service id
       else (service,
             writeErrorResponse StatusMethodNotAllowed "method not allowed")).
Proof.
  intros Hid Hpath Hprefix Hclean. unfold mux.
  rewrite (findHandler_canonical r Hclean), (matchPath_users_prefix _ Hprefix).
  rewrite (ServeHTTP_user service e r id Hid Hpath). reflexivity.
Qed.

Lemma mux_health (service : S) (e : Env) (r : Request) :
  EscapedPath r = "/health" →
  mux decodeCreateUserRequest decodeUpdateUserRequest service e r
  = (service,
     Handled {| StatusCode := StatusOK; ResponseBody := HealthJSON |}).
Proof.
  intros Hpath. unfold mux.
  rewrite findHandler_canonical by (rewrite Hpath; reflexivity).
  rewrite Hpath. reflexivity.
Qed.

Lemma mux_root (service : S) (e : Env) (r : Request) :
  EscapedPath r = "/" →
  mux decodeCreateUserRequest decodeUpdateUserRequest service e r
  = (service, Handled {| StatusCode := StatusOK; ResponseBody := RootJSON |}).
Proof.
  intros Hpath. destruct (Request_parsed r) as [_ Hdec].
  unfold mux.
  rewrite findHandler_canonical by (rewrite Hpath; reflexivity).
  rewrite Hpath in Hdec |- *. injection Hdec as Hdec.
  change (ServeMux.matchPath "/") with ServeMux.RootHandler.
  cbv iota. unfold rootHandler. rewrite <- Hdec. reflexivity.
Qed.

Lemma mux_redirect (service : S) (e : Env) (r : Request) :
  Method r ≠ MethodConnect →
  ServeMux.cleanPath (EscapedPath r) ≠ EscapedPath r →
  mux decodeCreateUserRequest decodeUpdateUserRequest service e r
  = (service, Redirect (ServeMux.cleanPath (EscapedPath r))).
Proof.
  intros Hm Hclean. unfold mux, ServeMux.findHandler.
  rewrite (bool_decide_eq_false_2 _ Hm), (bool_decide_eq_true_2 _ Hclean).
  reflexivity.
Qed.

Lemma mux_elsewhere (service : S) (e : Env) (r : Request) :
  ServeMux.cleanPath (EscapedPath r) = EscapedPath r →
  URLPath r ≠ "/users" → GoString.HasPrefix (URLPath r) "/users/" = false →
  URLPath r ≠ "/health" → URLPath r ≠ "/" →
  mux decodeCreateUserRequest decodeUpdateUserRequest service e r
  = (service,
     Handled {| StatusCode := StatusNotFound; ResponseBody := NotFoundText |}).
Proof.
  intros Hclean Hu Hp Hh Hr. unfold mux.
  destruct (findHandler_cases r)
    as [(_ & Hne & _) | [[_ Hus] | [[_ Hhe] | ->]]].
  - contradiction.
  - exfalso. destruct Hus as [Hus | [u Hus]]; [contradiction |].
    rewrite Hus in Hp. discriminate Hp.
  - contradiction.
  - unfold handled, rootHandler.
    rewrite bool_decide_eq_true_2 by assumption. reflexivity.
Qed.

(** Claim C9, as amended.  The mux answers a request whose path does not
    arrive in canonical form with a redirect to the canonical path, unless
    the method is CONNECT.  A request that arrives for [/users] or [/users/]
    with a method other than GET and POST, and one that arrives in canonical
    form for [/users/{id}] with a method other than GET, PUT and DELETE, is
    answered with 405 and the service is not called; one that arrives for
    [/health] or for [/] is answered with 200 whatever the method, their
    handlers reading no method; and one in canonical form whose decoded path
    is none of the four known ones is answered with 404. *)
Theorem mux_status (service : S) (e : Env) (r : Request) :
  (Method r ≠ MethodConnect →
   ServeMux.cleanPath (EscapedPath r) ≠ EscapedPath r →
   mux decodeCreateUserRequest decodeUpdateUserRequest service e r
   = (service, Redirect (ServeMux.cleanPath (EscapedPath r))))
  ∧ (EscapedPath r = "/users" ∨ EscapedPath r = "/users/" →
     Method r ≠ MethodGet → Method r ≠ MethodPost →
     mux decodeCreateUserRequest decodeUpdateUserRequest service e r
     = (service,
        Handled
          (writeErrorResponse StatusMethodNotAllowed "method not allowed")))
  ∧ (∀ id : string,
       id ≠ "" → URLPath r = "/users/" +:+ id →
       GoString.HasPrefix (EscapedPath r) "/users/" = true →
       ServeMux.cleanPath (EscapedPath r) = EscapedPath r →
       Method r ≠ MethodGet → Method r ≠ MethodPut →
       Method r ≠ MethodDelete →
       mux decodeCreateUserRequest decodeUpdateUserRequest service e r
       = (service,
          Handled
            (writeErrorResponse StatusMethodNotAllowed "method not allowed")))
  ∧ (EscapedPath r = "/health" →
     mux decodeCreateUserRequest decodeUpdateUserRequest service e r
     = (service,
        Handled {| StatusCode := StatusOK; ResponseBody := HealthJSON |}))
  ∧ (EscapedPath r = "/" →
     mux decodeCreateUserRequest decodeUpdateUserRequest service e r
     = (service,
        Handled {| StatusCode := StatusOK; ResponseBody := RootJSON |}))
  ∧ (ServeMux.cleanPath (EscapedPath r) = EscapedPath r →
     URLPath r ≠ "/users" →
     GoString.HasPrefix (URLPath r) "/users/" = false →
     URLPath r ≠ "/health" → URLPath r ≠ "/" →
     mux decodeCreateUserRequest decodeUpdateUserRequest service e r
     = (service,
        Handled
          {| StatusCode := StatusNotFound; ResponseBody := NotFoundText |})).
Proof.
  split; [apply mux_redirect |].
  split.
  { intros Hpath Hget Hpost. rewrite (mux_users service e r Hpath).
    rewrite !bool_decide_eq_false_2 by assumption. reflexivity. }
  split.
  { intros id Hid Hpath Hprefix Hclean Hget Hput Hdel.
    rewrite (mux_user service e r id Hid Hpath Hprefix Hclean).
    rewrite !bool_decide_eq_false_2 by assumption. reflexivity. }
  split; [apply mux_health |].
  split; [apply mux_root | apply mux_elsewhere].
Qed.

End Routing.

Lemma mux_status_witness :
  let serve := mux noJSON noJSON seeded (envOf "004" 2000) in
  serve (request "GET" "//orders" eq_refl) = (seeded, Redirect "/orders")
  ∧ serve (request "PATCH" "/users" eq_refl)
    = (seeded,
       Handled (writeErrorResponse StatusMethodNotAllowed "method not allowed"))
  ∧ serve (request "POST" "/users/0101010101010101" eq_refl)
    = (seeded,
       Handled (writeErrorResponse StatusMethodNotAllowed "method not allowed"))
  ∧ serve (request "GET" "/health" eq_refl)
    = (seeded, Handled {| StatusCode := StatusOK; ResponseBody := HealthJSON |})
  ∧ serve (request "GET" "/" eq_refl)
    = (seeded, Handled {| StatusCode := StatusOK; ResponseBody := RootJSON |})
  ∧ serve (request "GET" "/orders" eq_refl)
    = (seeded,
       Handled
         {| StatusCode := StatusNotFound; ResponseBody := NotFoundText |}).
Proof.
  intros serve. split; [| split; [| split; [| split; [| split]]]].
  - apply (mux_status noJSON noJSON seeded (envOf "004" 2000)
             (request "GET" "//orders" eq_refl)); discriminate.
  - apply (mux_status noJSON noJSON seeded (envOf "004" 2000)
             (request "PATCH" "/users" eq_refl));
      [left; reflexivity | discriminate ..].
  - apply (mux_status noJSON noJSON seeded (envOf "004" 2000)
             (request "POST" "/users/0101010101010101" eq_refl))
      with (id := "0101010101010101");
      [discriminate | reflexivity | reflexivity | reflexivity
      | discriminate ..].
  - apply (mux_status noJSON noJSON seeded (envOf "004" 2000)
             (request "GET" "/health" eq_refl)). reflexivity.
  - apply (mux_status noJSON noJSON seeded (envOf "004" 2000)
             (request "GET" "/" eq_refl)). reflexivity.
  - apply (mux_status noJSON noJSON seeded (envOf "004" 2000)
             (request "GET" "/orders" eq_refl));
      [reflexivity | discriminate | reflexivity | discriminate ..].
Defined.

(** Claim C9 fails as stated, in both halves.  [/health] is a known path
    whose only listed method is GET, and a POST to it is answered with 200,
    not with 405; and [//orders] matches no known path, and a GET of it is
    answered by the mux with a redirect to [/orders], not with 404. *)
Lemma health_any_method_and_unclean_redirect :
  mux noJSON noJSON seeded (envOf "004" 2000)
    (request "POST" "/health" eq_refl)
  = (seeded, Handled {| StatusCode := StatusOK; ResponseBody := HealthJSON |})
  ∧ (∀ body : Body,
       (mux noJSON noJSON seeded (envOf "004" 2000)
          (request "POST" "/health" eq_refl)).2
       ≠ Handled {| StatusCode := StatusMethodNotAllowed;
                    ResponseBody := body |})
  ∧ mux noJSON noJSON seeded (envOf "004" 2000)
      (request "GET" "//orders" eq_refl)
    = (seeded, Redirect "/orders")
  ∧ (∀ body : Body,
       (mux noJSON noJSON seeded (envOf "004" 2000)
          (request "GET" "//orders" eq_refl)).2
       ≠ Handled {| StatusCode := StatusNotFound; ResponseBody := body |}).
Proof.
  split; [reflexivity |]. split; [discriminate |].
  split; [reflexivity | discriminate].
Qed.

(** An escaped slash separates no segments: the path [/users%2F] and an id
    is matched by the pattern [/] alone, and [rootHandler] answers it with
    404, although the path that the handlers read is the one of a stored
    user. *)
Lemma escaped_slash_is_no_separator :
  mux noJSON noJSON seeded (envOf "004" 2000)
    {| Method := "GET"; URLPath := "/users/0101010101010101";
       EscapedPath := "/users%2F0101010101010101"; RequestBody := "";
       URL_parsed := eq_refl |}
  = (seeded,
     Handled {| StatusCode := StatusNotFound; ResponseBody := NotFoundText |}).
Proof. reflexivity. Qed.

(** ** Concurrent calls of [CreateUser] *)

(** A call that runs its two steps with no other call in between is the
    [CreateUser] of the sequential service. *)
Lemma run_alone_is_CreateUser (users : gmap string User) (e : Env)
    (name email : string) :
  Concurrent.run [0%nat; 0%nat] users [Concurrent.newCall e name email]
  = ((InMemoryUserService.CreateUser users e name email).1,
     [Concurrent.at_pc (Concurrent.newCall e name email)
        (Concurrent.Returned
           (InMemoryUserService.CreateUser users e name email).2)]).
Proof.
  unfold InMemoryUserService.CreateUser.
  cbn [Concurrent.run lookup list_lookup Concurrent.step Concurrent.newCall
       Concurrent.callPC Concurrent.callEmail Concurrent.callName
       Concurrent.callEnv].
  destruct (InMemoryUserService.checkEmailExists users email); [reflexivity |].
  destruct (Validate (NewUser e name email)); reflexivity.
Qed.

(** The race needs nothing of the map but that the email is free: any two
    calls with the same valid email and different ids both insert when both
    scans come first. *)
Lemma CreateUser_race_anywhere (users : gmap string User) (e1 e2 : Env)
    (name1 name2 email : string) :
  name1 ≠ "" → name2 ≠ "" → isValidEmail email = true →
  (∀ id u, users !! id = Some u → Email u ≠ email) →
  generateID (rnd e1) ≠ generateID (rnd e2) →
  let ann := NewUser e1 name1 email in
  let bea := NewUser e2 name2 email in
  Concurrent.run [0%nat; 1%nat; 0%nat; 1%nat] users
    [Concurrent.newCall e1 name1 email; Concurrent.newCall e2 name2 email]
  = (<[ID bea := bea]> (<[ID ann := ann]> users),
     [Concurrent.at_pc (Concurrent.newCall e1 name1 email)
        (Concurrent.Returned (Ok ann));
      Concurrent.at_pc (Concurrent.newCall e2 name2 email)
        (Concurrent.Returned (Ok bea))]).
Proof.
  intros Hn1 Hn2 He Hfree Hid ann bea.
  assert (InMemoryUserService.checkEmailExists users email = None) as Hchk
    by (apply checkEmailExists_None; exact Hfree).
  assert (Validate ann = None) as Hva by (apply Validate_None; auto).
  assert (Validate bea = None) as Hvb by (apply Validate_None; auto).
  cbn [Concurrent.run lookup list_lookup Concurrent.step Concurrent.newCall
       Concurrent.callPC Concurrent.callEmail Concurrent.callName
       Concurrent.callEnv Concurrent.at_pc insert list_insert].
  rewrite Hchk. fold ann. rewrite Hva.
  cbn [Concurrent.run lookup list_lookup Concurrent.step Concurrent.newCall
       Concurrent.callPC Concurrent.callEmail Concurrent.callName
       Concurrent.callEnv Concurrent.at_pc insert list_insert].
  rewrite Hchk. fold bea. rewrite Hvb.
  reflexivity.
Qed.

(** Run one after the other, the same two calls give one success and one
    Conflict. *)
Lemma CreateUser_serial :
  let calls := [Concurrent.newCall (envOf "004" 2000) "Ann" "dup@example.com";
                Concurrent.newCall (envOf "005" 2001) "Bea" "dup@example.com"] in
  let after := Concurrent.run [0%nat; 0%nat; 1%nat; 1%nat] seeded calls in
  Concurrent.succeeded <$> after.2 = [true; false]
  ∧ Concurrent.conflicted <$> after.2 = [false; true].
Proof. split; vm_compute; reflexivity. Qed.

(** Claim C6, where the code departs from it: two calls of [CreateUser] with
    the same email on a new service, each making its scan before the other
    inserts.  Both succeed, neither gets the Conflict, and the map ends with
    two users that hold the same email. *)
Theorem CreateUser_race :
  let ann := NewUser (envOf "004" 2000) "Ann" "dup@example.com" in
  let bea := NewUser (envOf "005" 2001) "Bea" "dup@example.com" in
  let calls := [Concurrent.newCall (envOf "004" 2000) "Ann" "dup@example.com";
                Concurrent.newCall (envOf "005" 2001) "Bea" "dup@example.com"] in
  let after := Concurrent.run [0%nat; 1%nat; 0%nat; 1%nat] seeded calls in
  Concurrent.succeeded <$> after.2 = [true; true]
  ∧ Concurrent.conflicted <$> after.2 = [false; false]
  ∧ after.1 !! ID ann = Some ann
  ∧ after.1 !! ID bea = Some bea
  ∧ ID ann ≠ ID bea
  ∧ Email ann = Email bea
  ∧ ¬ uniqueEmails after.1.
Proof.
  intros ann bea calls after.
  assert (after.1 !! ID ann = Some ann) as La by (vm_compute; reflexivity).
  assert (after.1 !! ID bea = Some bea) as Lb by (vm_compute; reflexivity).
  assert (ID ann ≠ ID bea) as Hne by (vm_compute; discriminate).
  repeat split; try assumption; try (vm_compute; reflexivity).
  intros Hu. apply Hne. apply (Hu _ _ _ _ La Lb). reflexivity.
Qed.

(** * Further properties of the code *)

(** Membership in a list that is written out. *)
Ltac in_list :=
  apply list_elem_of_In; cbn; repeat (first [left; reflexivity | right]).

(** ** [generateID] *)

Lemma hexDigit_alphabet (d : N) :
  (d < 16)%N → hexDigit d ∈ list_ascii_of_string "0123456789abcdef".
Proof.
  intros Hd. unfold hexDigit.
  apply list_elem_of_lookup. exists (N.to_nat d).
  destruct (nth_lookup_or_length
              (list_ascii_of_string "0123456789abcdef") (N.to_nat d) zero)
    as [Hin | Hout]; [exact Hin |].
  cbn in Hout. lia.
Qed.

Lemma hex_length (bytes : list ascii) :
  String.length (hex bytes) = (2 * length bytes)%nat.
Proof. induction bytes as [| b t IH]; cbn [hex String.length length]; lia. Qed.

Lemma hex_alphabet (bytes : list ascii) (i : nat) (c : ascii) :
  String.get i (hex bytes) = Some c →
  c ∈ list_ascii_of_string "0123456789abcdef".
Proof.
  revert i. induction bytes as [| b t IH]; intros i; cbn [hex].
  - destruct i; discriminate.
  - pose proof (N_ascii_bounded b) as Hb.
    destruct i as [| [| i]]; cbn [String.get].
    + intros [= <-]. apply hexDigit_alphabet.
      apply N.Div0.div_lt_upper_bound. lia.
    + intros [= <-]. apply hexDigit_alphabet.
      apply N.mod_upper_bound. lia.
    + apply IH.
Qed.

(** Property X1.  An id is the lower-case hexadecimal writing of the random
    bytes: two characters for each byte, all of them among [0-9a-f]; for the
    eight bytes that [generateID] reads it has sixteen characters, so it is
    never empty. *)
Theorem generateID_format (bytes : list ascii) :
  String.length (generateID bytes) = (2 * length bytes)%nat
  ∧ (∀ (i : nat) (c : ascii),
       String.get i (generateID bytes) = Some c →
       c ∈ list_ascii_of_string "0123456789abcdef")
  ∧ (length bytes = 8%nat →
     String.length (generateID bytes) = 16%nat ∧ generateID bytes ≠ "").
Proof.
  unfold generateID. split; [apply hex_length |]. split.
  - intros i c. apply hex_alphabet.
  - intros H8. pose proof (hex_length bytes) as Hl. rewrite H8 in Hl.
    split; [exact Hl |]. intros Hempty. rewrite Hempty in Hl. discriminate.
Qed.

(** Property X2.  Two ids are equal only when the random bytes read were:
    different reads of [crypto/rand] never give the same id. *)
Theorem generateID_distinct (b1 b2 : list ascii) :
  generateID b1 = generateID b2 ↔ b1 = b2.
Proof. split; [apply generateID_inj | intros ->; reflexivity]. Qed.

(** ** [isValidEmail] *)

(** Property X3.  [isValidEmail] looks at nothing but the length of the
    string and the places of its ['@'] and ['.'] bytes: two strings of the
    same length with these bytes at the same places are both accepted or both
    rejected, whatever their other bytes are. *)
Theorem isValidEmail_reads_at_and_dot_only (s t : string) :
  String.length s = String.length t →
  (∀ i : nat, String.get i s = Some "@"%char ↔ String.get i t = Some "@"%char) →
  (∀ i : nat, String.get i s = Some "."%char ↔ String.get i t = Some "."%char) →
  isValidEmail s = isValidEmail t.
Proof.
  assert (∀ s t : string,
            String.length s = String.length t →
            (∀ i : nat,
               String.get i s = Some "@"%char ↔ String.get i t = Some "@"%char) →
            (∀ i : nat,
               String.get i s = Some "."%char ↔ String.get i t = Some "."%char) →
            isValidEmail s = true → isValidEmail t = true) as Hone.
  { clear s t. intros s t Hlen Hat Hdot. unfold isValidEmail.
    rewrite !isValidEmailBytes_true, !length_list_ascii.
    intros (i & Hi & Hu & H0 & Hl & j & Hij & Hjl & Hj). exists i.
    rewrite <- get_lookup in Hi, Hj. rewrite <- get_lookup.
    repeat split.
    - apply Hat, Hi.
    - intros k Hk. apply Hu. rewrite <- get_lookup in Hk |- *. apply Hat, Hk.
    - exact H0.
    - congruence.
    - exists j. rewrite <- get_lookup, <- Hlen.
      repeat split; [exact Hij | exact Hjl | apply Hdot, Hj]. }
  intros Hlen Hat Hdot.
  destruct (isValidEmail s) eqn:Es, (isValidEmail t) eqn:Et; try reflexivity.
  - rewrite (Hone s t Hlen Hat Hdot Es) in Et. discriminate.
  - assert (isValidEmail s = true) as Es'.
    { apply (Hone t s); [congruence | intros i; symmetry; apply Hat
                         | intros i; symmetry; apply Hdot | exact Et]. }
    congruence.
Qed.

Lemma isValidEmail_reads_at_and_dot_only_witness :
  isValidEmail "a b@c#d.e!" = isValidEmail "x\y@z?w.v~".
Proof.
  apply (isValidEmail_reads_at_and_dot_only "a b@c#d.e!" "x\y@z?w.v~").
  - reflexivity.
  - intros i. do 10 (destruct i as [| i]; [vm_compute; split; congruence |]).
    vm_compute. split; congruence.
  - intros i. do 10 (destruct i as [| i]; [vm_compute; split; congruence |]).
    vm_compute. split; congruence.
Defined.

(** Property X4.  An accepted email has at least four bytes: one before the
    ['@'], the ['@'], a ['.'] after it and one byte after that ['.'].  Four
    are enough, as [a@.b] shows: the rule asks for no text between the ['@']
    and the ['.']. *)
Theorem isValidEmail_length (email : string) :
  isValidEmail email = true → (4 ≤ String.length email)%nat.
Proof.
  unfold isValidEmail. rewrite isValidEmailBytes_true, length_list_ascii.
  intros (i & _ & _ & H0 & _ & j & Hij & Hjl & _). lia.
Qed.

Lemma isValidEmail_length_witness : (4 ≤ String.length "a@.b")%nat.
Proof. apply (isValidEmail_length "a@.b"). vm_compute. reflexivity. Defined.

(** ** [Validate] and [Update] *)

(** Property X5.  [Validate] accepts a user exactly when the name is not
    empty and the email passes [isValidEmail].  What it returns otherwise is
    always a Validation error, answered with 400; it names [name] whenever
    the name is empty, also when the email is bad too, and [email]
    otherwise. *)
Theorem Validate_outcome (u : User) :
  match Validate u with
  | None => Name u ≠ "" ∧ isValidEmail (Email u) = true
  | Some err =>
      Type_ err = ErrorTypeValidation
      ∧ HTTPStatusCode err = StatusBadRequest
      ∧ Field err = (if bool_decide (Name u = "") then "name" else "email")
      ∧ (Name u = "" ∨ isValidEmail (Email u) = false)
  end.
Proof.
  destruct (Validate u) as [err |] eqn:E.
  - destruct (Validate_Some u err E) as [Hty Hf].
    repeat split; [exact Hty | | exact Hf |].
    + unfold HTTPStatusCode. rewrite Hty. reflexivity.
    + destruct (decide (Name u = "")) as [| Hn]; [left; assumption |].
      destruct (isValidEmail (Email u)) eqn:He; [| right; reflexivity].
      assert (Validate u = None) by (apply Validate_None; auto). congruence.
  - apply Validate_None, E.
Qed.

(** Property X6.  [Update] never touches the id or the creation time of its
    receiver, sets [UpdatedAt] to the clock's reading or leaves it, and the
    record it leaves passes [Validate] exactly when the record did before or
    the name and email passed in are both good (so it never makes a valid
    record invalid). *)
Theorem Update_keeps (u : User) (name email : string) (t : Time) :
  ID (Update u name email t) = ID u
  ∧ CreatedAt (Update u name email t) = CreatedAt u
  ∧ (UpdatedAt (Update u name email t) = UpdatedAt u
     ∨ UpdatedAt (Update u name email t) = t)
  ∧ (Validate (Update u name email t) = None
     ↔ Validate u = None ∨ (name ≠ "" ∧ isValidEmail email = true)).
Proof.
  destruct (decide (name = "")) as [Hn | Hn].
  { rewrite Update_invalid by auto. repeat split; auto.
    intros [? | [? _]]; [assumption | contradiction]. }
  destruct (isValidEmail email) eqn:He.
  - rewrite Update_valid by assumption. cbn.
    repeat split; auto. intros _. apply Validate_None. auto.
  - rewrite Update_invalid by auto. repeat split; auto.
    intros [? | [_ ?]]; [assumption | discriminate].
Qed.

(** ** The seeds *)

(** Property X28.  Whatever the three reads of [crypto/rand] are, equal or
    not, a new service holds a consistent map: between one and three users,
    each valid and stored under its own id, no two with the same email.  Ids
    that coincide only make the later seed replace the earlier one. *)
Theorem NewInMemoryUserService_consistent (e1 e2 e3 : Env) :
  consistent (InMemoryUserService.NewInMemoryUserService e1 e2 e3)
  ∧ (1 ≤ size (InMemoryUserService.NewInMemoryUserService e1 e2 e3) ≤ 3)%nat
  ∧ InMemoryUserService.NewInMemoryUserService e1 e2 e3
      !! generateID (rnd e3)
    = Some (NewUser e3 "Bob Johnson" "bob.johnson@example.com").
Proof.
  split; [apply consistent_seed |].
  unfold InMemoryUserService.NewInMemoryUserService,
    InMemoryUserService.seedData.
  cbn [fold_left ID NewUser].
  split; [| apply lookup_insert_eq].
  rewrite !map_size_insert, map_size_empty, lookup_empty.
  repeat (destruct (_ !! _)); cbn; lia.
Qed.


(** ** Reading the map *)

(** Property X7.  [GetUsers] never fails and leaves the map alone; the list
    it returns has one entry for each key of the map and holds exactly the
    stored users. *)
Theorem GetUsers_all (users : gmap string User) :
  ∃ l : list User,
    InMemoryUserService.GetUsers users = (users, Ok l)
    ∧ length l = size users
    ∧ ∀ u : User, u ∈ l ↔ ∃ id : string, users !! id = Some u.
Proof.
  exists (map snd (map_to_list users)). split; [reflexivity |]. split.
  - rewrite length_map. apply length_map_to_list.
  - intros u. change (map snd (map_to_list users))
      with (snd <$> map_to_list users).
    rewrite list_elem_of_fmap. split.
    + intros ([id u'] & -> & Hin). exists id.
      apply elem_of_map_to_list, Hin.
    + intros (id & Hlook). exists (id, u). split; [reflexivity |].
      apply elem_of_map_to_list, Hlook.
Qed.

(** Property X8.  In a map that calls made one after the other can leave
    behind, a user found under an id carries that id and passes [Validate]:
    [GetUserByID] never returns a record with another id, an empty name or
    an email that fails the rule. *)
Theorem GetUserByID_well_formed (users : gmap string User) (id : string)
    (u : User) :
  reachable users → users !! id = Some u →
  InMemoryUserService.GetUserByID users id = (users, Ok u)
  ∧ ID u = id ∧ Name u ≠ "" ∧ isValidEmail (Email u) = true.
Proof.
  intros Hr Hlook.
  destruct (reachable_consistent users Hr) as (_ & Hk & Hv).
  unfold InMemoryUserService.GetUserByID. rewrite Hlook.
  split; [reflexivity |]. split; [eapply Hk, Hlook |].
  apply Validate_None. eapply Hv, Hlook.
Qed.

Lemma GetUserByID_well_formed_witness :
  InMemoryUserService.GetUserByID afterCalls johnID
  = (afterCalls,
     Ok {| ID := johnID; Name := "Johnny"; Email := "johnny@example.com";
           CreatedAt := 1000; UpdatedAt := 2001 |})
  ∧ johnID = johnID ∧ "Johnny" ≠ "" ∧ isValidEmail "johnny@example.com" = true.
Proof.
  apply (GetUserByID_well_formed afterCalls johnID
           {| ID := johnID; Name := "Johnny"; Email := "johnny@example.com";
              CreatedAt := 1000; UpdatedAt := 2001 |}).
  - apply reachable_delete, reachable_update, reachable_create, reachable_new.
  - vm_compute. reflexivity.
Defined.

(** ** [CreateUser] *)

(** A [CreateUser] that succeeded: what it returned and stored, and what
    held of its arguments. *)
Lemma CreateUser_Ok_inv (users users' : gmap string User) (e : Env)
    (name email : string) (user : User) :
  InMemoryUserService.CreateUser users e name email = (users', Ok user) →
  user = NewUser e name email
  ∧ users' = <[ID user := user]> users
  ∧ (∀ id u, users !! id = Some u → Email u ≠ email)
  ∧ name ≠ "" ∧ isValidEmail email = true.
Proof.
  unfold InMemoryUserService.CreateUser.
  destruct (InMemoryUserService.checkEmailExists users email) eqn:Hchk;
    [discriminate |].
  destruct (Validate (NewUser e name email)) eqn:Hval; [discriminate |].
  intros [= <- <-].
  apply Validate_None in Hval as [Hn He].
  repeat split; try assumption.
  apply checkEmailExists_None, Hchk.
Qed.

(** A [CreateUser] that failed: the map is the old one, and the error is the
    Conflict for a held email or a Validation error for a free one. *)
Lemma CreateUser_Err_inv (users users' : gmap string User) (e : Env)
    (name email : string) (err : error) :
  InMemoryUserService.CreateUser users e name email = (users', Err err) →
  users' = users
  ∧ ((err = AppErr (NewConflictError "email already exists")
      ∧ ∃ id u, users !! id = Some u ∧ Email u = email)
     ∨ ((∃ a : AppError, err = AppErr a ∧ Type_ a = ErrorTypeValidation)
        ∧ (∀ id u, users !! id = Some u → Email u ≠ email)
        ∧ (name = "" ∨ isValidEmail email = false))).
Proof.
  unfold InMemoryUserService.CreateUser.
  destruct (InMemoryUserService.checkEmailExists users email) as [c |] eqn:Hchk.
  - apply checkEmailExists_Some in Hchk as [-> Hheld].
    intros [= <- <-]. split; [reflexivity |]. left. auto.
  - pose proof (proj1 (checkEmailExists_None users email) Hchk) as Hfree.
    destruct (Validate (NewUser e name email)) as [v |] eqn:Hval;
      [| discriminate].
    intros [= <- <-]. split; [reflexivity |]. right.
    destruct (Validate_Some _ _ Hval) as [Hty _].
    split; [eauto |]. split; [exact Hfree |].
    destruct (decide (name = "")) as [| Hn]; [left; assumption |].
    destruct (isValidEmail email) eqn:He; [| right; reflexivity].
    assert (Validate (NewUser e name email) = None)
      by (apply Validate_None; auto).
    congruence.
Qed.

(** Property X9.  What decides the outcome of [CreateUser], for any map: it
    returns the Conflict exactly when a stored user holds the email; if none
    does, a Validation error exactly when the name is empty or the email
    fails the rule; otherwise it succeeds, returns the new user and stores it
    under the user's id.  Whenever it fails the map is left as it was. *)
Theorem CreateUser_outcome (users : gmap string User) (e : Env)
    (name email : string) :
  match InMemoryUserService.CreateUser users e name email with
  | (users', Ok user) =>
      user = NewUser e name email
      ∧ users' = <[ID user := user]> users
      ∧ (∀ id u, users !! id = Some u → Email u ≠ email)
      ∧ name ≠ "" ∧ isValidEmail email = true
  | (users', Err err) =>
      users' = users
      ∧ ((err = AppErr (NewConflictError "email already exists")
          ∧ ∃ id u, users !! id = Some u ∧ Email u = email)
         ∨ ((∃ a : AppError, err = AppErr a ∧ Type_ a = ErrorTypeValidation)
            ∧ (∀ id u, users !! id = Some u → Email u ≠ email)
            ∧ (name = "" ∨ isValidEmail email = false)))
  end.
Proof.
  destruct (InMemoryUserService.CreateUser users e name email)
    as [users' [user | err]] eqn:Hres.
  - eapply CreateUser_Ok_inv, Hres.
  - eapply CreateUser_Err_inv, Hres.
Qed.

(** Property X10.  An email can be used once: after a [CreateUser] that
    succeeded, every further [CreateUser] with the same email, whatever its
    name, fails with the Conflict and changes nothing. *)
Theorem CreateUser_twice (users users' : gmap string User) (e e2 : Env)
    (name name2 email : string) (user : User) :
  InMemoryUserService.CreateUser users e name email = (users', Ok user) →
  InMemoryUserService.CreateUser users' e2 name2 email
  = (users', Err (AppErr (NewConflictError "email already exists"))).
Proof.
  intros Hfirst.
  apply CreateUser_Ok_inv in Hfirst as (-> & -> & _).
  unfold InMemoryUserService.CreateUser.
  assert (InMemoryUserService.checkEmailExists
            (<[ID (NewUser e name email) := NewUser e name email]> users) email
          = Some (NewConflictError "email already exists")) as ->;
    [| reflexivity].
  apply checkEmailExists_Some. split; [reflexivity |].
  exists (ID (NewUser e name email)), (NewUser e name email).
  split; [apply lookup_insert_eq | reflexivity].
Qed.

Lemma CreateUser_twice_witness :
  InMemoryUserService.CreateUser
    (InMemoryUserService.CreateUser seeded (envOf "004" 2000)
       "Alice" "alice@example.com").1
    (envOf "005" 2001) "Alicia" "alice@example.com"
  = ((InMemoryUserService.CreateUser seeded (envOf "004" 2000)
        "Alice" "alice@example.com").1,
     Err (AppErr (NewConflictError "email already exists"))).
Proof.
  apply (CreateUser_twice seeded _ (envOf "004" 2000) (envOf "005" 2001)
           "Alice" "Alicia" "alice@example.com"
           (NewUser (envOf "004" 2000) "Alice" "alice@example.com")).
  vm_compute. reflexivity.
Defined.

(** Property X11.  [CreateUser] does not look whether the id it draws is
    taken.  If it is, and the call succeeds, the user that was stored under
    that id is replaced by the new one: the map has as many users as before
    and [GetUserByID] at that id gives the new user. *)
Theorem CreateUser_replaces_on_id_collision (users users' : gmap string User)
    (e : Env) (name email : string) (old user : User) :
  users !! generateID (rnd e) = Some old →
  InMemoryUserService.CreateUser users e name email = (users', Ok user) →
  ID user = generateID (rnd e)
  ∧ size users' = size users
  ∧ InMemoryUserService.GetUserByID users' (generateID (rnd e))
    = (users', Ok user)
  ∧ Name user = name ∧ Email user = email.
Proof.
  intros Hold Hres.
  apply CreateUser_Ok_inv in Hres as (-> & -> & _).
  cbn [ID NewUser Name Email]. repeat split.
  - apply map_size_insert_Some. eauto.
  - unfold InMemoryUserService.GetUserByID. now rewrite lookup_insert_eq.
Qed.

Lemma CreateUser_replaces_on_id_collision_witness :
  let users' := (InMemoryUserService.CreateUser seeded (envOf "001" 3000)
                   "Eve" "eve@example.com").1 in
  let eve := NewUser (envOf "001" 3000) "Eve" "eve@example.com" in
  ID eve = generateID (rnd (envOf "001" 3000))
  ∧ size users' = size seeded
  ∧ InMemoryUserService.GetUserByID users' (generateID (rnd (envOf "001" 3000)))
    = (users', Ok eve)
  ∧ Name eve = "Eve" ∧ Email eve = "eve@example.com".
Proof.
  apply (CreateUser_replaces_on_id_collision seeded _ (envOf "001" 3000)
           "Eve" "eve@example.com"
           {| ID := johnID; Name := "John Doe"; Email := "john.doe@example.com";
              CreatedAt := 1000; UpdatedAt := 1000 |}).
  - vm_compute. reflexivity.
  - vm_compute. reflexivity.
Defined.

(** ** [DeleteUser] *)

(** Property X12.  [DeleteUser] of a stored id succeeds and removes that
    user and no other: the id is gone, every other id holds what it held,
    and the map has one user less. *)
Theorem DeleteUser_removes_one (users : gmap string User) (id : string)
    (u : User) :
  users !! id = Some u →
  ∃ users' : gmap string User,
    InMemoryUserService.DeleteUser users id = (users', None)
    ∧ users' !! id = None
    ∧ (∀ id' : string, id' ≠ id → users' !! id' = users !! id')
    ∧ S (size users') = size users.
Proof.
  intros Hlook. exists (delete id users).
  unfold InMemoryUserService.DeleteUser. rewrite Hlook.
  split; [reflexivity |]. split; [apply lookup_delete_eq |]. split.
  - intros id' Hne. apply lookup_delete_ne. congruence.
  - rewrite map_size_delete_Some by eauto.
    assert (size users ≠ 0%nat); [| lia].
    intros Hz. apply map_size_empty_inv in Hz. subst users.
    rewrite lookup_empty in Hlook. discriminate.
Qed.

Lemma DeleteUser_removes_one_witness :
  ∃ users' : gmap string User,
    InMemoryUserService.DeleteUser seeded johnID = (users', None)
    ∧ users' !! johnID = None
    ∧ (∀ id' : string, id' ≠ johnID → users' !! id' = seeded !! id')
    ∧ S (size users') = size seeded.
Proof.
  apply (DeleteUser_removes_one seeded johnID
           {| ID := johnID; Name := "John Doe"; Email := "john.doe@example.com";
              CreatedAt := 1000; UpdatedAt := 1000 |}).
  vm_compute. reflexivity.
Defined.

(** Property X13.  Creating a user under an id that was free and then
    deleting the id that [CreateUser] returned gives the map back as it was
    before the two calls. *)
Theorem CreateUser_then_DeleteUser (users users' : gmap string User)
    (e : Env) (name email : string) (user : User) :
  users !! generateID (rnd e) = None →
  InMemoryUserService.CreateUser users e name email = (users', Ok user) →
  InMemoryUserService.DeleteUser users' (ID user) = (users, None).
Proof.
  intros Hfree Hres.
  apply CreateUser_Ok_inv in Hres as (-> & -> & _).
  unfold InMemoryUserService.DeleteUser.
  rewrite lookup_insert_eq. cbn [ID NewUser].
  now rewrite delete_insert_id.
Qed.

Lemma CreateUser_then_DeleteUser_witness :
  InMemoryUserService.DeleteUser
    (InMemoryUserService.CreateUser seeded (envOf "004" 2000)
       "Alice" "alice@example.com").1
    (ID (NewUser (envOf "004" 2000) "Alice" "alice@example.com"))
  = (seeded, None).
Proof.
  apply (CreateUser_then_DeleteUser seeded _ (envOf "004" 2000)
           "Alice" "alice@example.com").
  - vm_compute. reflexivity.
  - vm_compute. reflexivity.
Defined.

(** ** [UpdateUser] *)

(** The map that [UpdateUser] leaves: the old one, or the old one with the
    record of [id] replaced by what [Update] made of it. *)
Lemma UpdateUser_store_shape (users : gmap string User) (e : Env)
    (id name email : string) :
  (InMemoryUserService.UpdateUser users e id name email).1 = users
  ∨ ∃ user : User,
      users !! id = Some user
      ∧ (InMemoryUserService.UpdateUser users e id name email).1
        = <[id := Update user name email (now e)]> users.
Proof.
  unfold InMemoryUserService.UpdateUser.
  destruct (users !! id) as [user |] eqn:Hlook; [| left; reflexivity].
  destruct (_ && _); [left; reflexivity |].
  right. exists user. split; [reflexivity |].
  destruct (Validate _); reflexivity.
Qed.

(** Property X14.  [UpdateUser] changes at most the record of the id it is
    given: the map keeps its set of ids, every other id holds what it held,
    and the record of the id keeps its [ID] and its [CreatedAt]. *)
Theorem UpdateUser_frame (users : gmap string User) (e : Env)
    (id name email : string) :
  let users' := (InMemoryUserService.UpdateUser users e id name email).1 in
  dom users' = dom users
  ∧ (∀ id' : string, id' ≠ id → users' !! id' = users !! id')
  ∧ (∀ u : User, users !! id = Some u →
       ∃ u' : User,
         users' !! id = Some u' ∧ ID u' = ID u ∧ CreatedAt u' = CreatedAt u).
Proof.
  intros users'. subst users'.
  destruct (UpdateUser_store_shape users e id name email)
    as [-> | (user & Hlook & ->)].
  - repeat split. intros u Hu. exists u. auto.
  - split; [apply dom_insert_lookup_L; eauto |]. split.
    + intros id' Hne. apply lookup_insert_ne. congruence.
    + intros u Hu. assert (u = user) as -> by congruence.
      exists (Update user name email (now e)).
      split; [apply lookup_insert_eq |].
      unfold Update. destruct (Validate _); [auto |].
      repeat case_bool_decide; cbn; auto.
Qed.

(** Property X15.  What [UpdateUser] returns on success is what it has
    stored: [GetUserByID] at the same id gives the same record.  That record
    is the old one untouched, or the old one with the name and the email
    passed in and with [UpdatedAt] at the clock's reading. *)
Theorem UpdateUser_then_GetUserByID (users users' : gmap string User)
    (e : Env) (id name email : string) (user : User) :
  InMemoryUserService.UpdateUser users e id name email = (users', Ok user) →
  InMemoryUserService.GetUserByID users' id = (users', Ok user)
  ∧ ∃ old : User,
      users !! id = Some old
      ∧ (user = old
         ∨ user = {| ID := ID old; Name := name; Email := email;
                     CreatedAt := CreatedAt old; UpdatedAt := now e |}).
Proof.
  unfold InMemoryUserService.UpdateUser.
  destruct (users !! id) as [old |] eqn:Hlook; [| discriminate].
  destruct (_ && _); [discriminate |].
  destruct (Validate _); [discriminate |].
  intros [= <- <-]. split.
  - unfold InMemoryUserService.GetUserByID. now rewrite lookup_insert_eq.
  - exists old. split; [reflexivity |].
    destruct (decide (name = "")) as [Hn | Hn];
      [left; apply Update_invalid; auto |].
    destruct (isValidEmail email) eqn:He;
      [right; apply Update_valid; auto | left; apply Update_invalid; auto].
Qed.

Lemma UpdateUser_then_GetUserByID_witness :
  let johnny := {| ID := johnID; Name := "Johnny";
                   Email := "johnny@example.com";
                   CreatedAt := 1000; UpdatedAt := 2000 |} in
  let users' := (InMemoryUserService.UpdateUser seeded (envOf "004" 2000)
                   johnID "Johnny" "johnny@example.com").1 in
  InMemoryUserService.GetUserByID users' johnID = (users', Ok johnny)
  ∧ ∃ old : User,
      seeded !! johnID = Some old
      ∧ (johnny = old
         ∨ johnny = {| ID := ID old; Name := "Johnny";
                       Email := "johnny@example.com";
                       CreatedAt := CreatedAt old;
                       UpdatedAt := now (envOf "004" 2000) |}).
Proof.
  apply (UpdateUser_then_GetUserByID seeded _ (envOf "004" 2000) johnID
           "Johnny" "johnny@example.com").
  vm_compute. reflexivity.
Defined.

(** Property X16.  When a stored user is updated with a name that is not
    empty and a valid email that no other stored user holds, in a map whose
    users are stored under their own ids, [UpdateUser] succeeds: it stores
    and returns the record with that name and email, its old [ID] and
    [CreatedAt], and [UpdatedAt] at the clock's reading. *)
Theorem UpdateUser_succeeds (users : gmap string User) (e : Env)
    (id name email : string) (old : User) :
  keyedByID users →
  users !! id = Some old →
  name ≠ "" → isValidEmail email = true →
  (∀ id' u, users !! id' = Some u → id' ≠ id → Email u ≠ email) →
  InMemoryUserService.UpdateUser users e id name email
  = (<[id := {| ID := ID old; Name := name; Email := email;
                CreatedAt := CreatedAt old; UpdatedAt := now e |}]> users,
     Ok {| ID := ID old; Name := name; Email := email;
           CreatedAt := CreatedAt old; UpdatedAt := now e |}).
Proof.
  intros Hk Hlook Hn He Hfree.
  unfold InMemoryUserService.UpdateUser. rewrite Hlook.
  assert (InMemoryUserService.emailTakenByOther users id email = false)
    as ->.
  { destruct (InMemoryUserService.emailTakenByOther users id email) eqn:Ht;
      [| reflexivity].
    apply emailTakenByOther_true in Ht as (k & u & Hku & Hid & Hem).
    exfalso. apply (Hfree k u Hku); [| exact Hem].
    intros ->. apply Hid. eapply Hk, Hku. }
  rewrite andb_false_r.
  rewrite Update_valid by assumption.
  assert (Validate {| ID := ID old; Name := name; Email := email;
                      CreatedAt := CreatedAt old; UpdatedAt := now e |} = None)
    as -> by (apply Validate_None; auto).
  reflexivity.
Qed.

Lemma UpdateUser_succeeds_witness :
  InMemoryUserService.UpdateUser seeded (envOf "004" 2000) johnID
    "Johnny" "johnny@example.com"
  = (<[johnID := {| ID := johnID; Name := "Johnny";
                    Email := "johnny@example.com";
                    CreatedAt := 1000; UpdatedAt := 2000 |}]> seeded,
     Ok {| ID := johnID; Name := "Johnny"; Email := "johnny@example.com";
           CreatedAt := 1000; UpdatedAt := 2000 |}).
Proof.
  apply (UpdateUser_succeeds seeded (envOf "004" 2000) johnID
           "Johnny" "johnny@example.com"
           {| ID := johnID; Name := "John Doe"; Email := "john.doe@example.com";
              CreatedAt := 1000; UpdatedAt := 1000 |}).
  - apply (reachable_consistent seeded), reachable_new.
  - vm_compute. reflexivity.
  - discriminate.
  - vm_compute. reflexivity.
  - intros id' u Hu _. revert id' u Hu.
    apply checkEmailExists_None. vm_compute. reflexivity.
Defined.

(** ** Timestamps *)

Lemma timely_insert (t : Time) (users : gmap string User) (id : string)
    (u : User) :
  timely t users → CreatedAt u ≤ UpdatedAt u ≤ t →
  timely t (<[id := u]> users).
Proof.
  intros Ht Hu k v Hk. rewrite lookup_insert in Hk.
  case_decide; simplify_eq; [lia | eauto].
Qed.

Lemma timely_later (t t' : Time) (users : gmap string User) :
  timely t users → t ≤ t' → timely t' users.
Proof. intros Ht Hle k v Hk. destruct (Ht k v Hk). lia. Qed.

(** Property X17.  With a clock that does not run backwards the timestamps
    stay in order: if no stored record was updated before it was created or
    after the clock's last reading, the same holds after a [CreateUser], an
    [UpdateUser] or a [DeleteUser] made at a reading that is not earlier. *)
Theorem timestamps_stay_ordered (t : Time) (users : gmap string User)
    (e : Env) (id name email : string) :
  timely t users → t ≤ now e →
  timely (now e) (InMemoryUserService.CreateUser users e name email).1
  ∧ timely (now e) (InMemoryUserService.UpdateUser users e id name email).1
  ∧ timely (now e) (InMemoryUserService.DeleteUser users id).1.
Proof.
  intros Ht Hle. pose proof (timely_later t (now e) users Ht Hle) as Hnow.
  split; [| split].
  - unfold InMemoryUserService.CreateUser.
    destruct (InMemoryUserService.checkEmailExists users email);
      [exact Hnow |].
    destruct (Validate _); [exact Hnow |].
    apply timely_insert; [exact Hnow | cbn; lia].
  - destruct (UpdateUser_store_shape users e id name email)
      as [-> | (user & Hlook & ->)]; [exact Hnow |].
    apply timely_insert; [exact Hnow |].
    destruct (Ht id user Hlook) as [Hcu Hut].
    unfold Update. destruct (Validate _); [lia |].
    repeat case_bool_decide; cbn; lia.
  - unfold InMemoryUserService.DeleteUser.
    destruct (users !! id); [| exact Hnow].
    intros k v Hk. cbn [fst] in Hk.
    apply lookup_delete_Some in Hk as [_ Hk]. eauto.
Qed.

Lemma timely_seeded : timely 1002 seeded.
Proof.
  intros id u Hlook.
  assert (u ∈ (map snd (map_to_list seeded))) as Hin.
  { change (map snd (map_to_list seeded)) with (snd <$> map_to_list seeded).
    apply list_elem_of_fmap. exists (id, u).
    split; [reflexivity | apply elem_of_map_to_list, Hlook]. }
  vm_compute in Hin.
  repeat (apply elem_of_cons in Hin as [-> | Hin]); [.. | inversion Hin];
    cbn; lia.
Qed.

Lemma timestamps_stay_ordered_witness :
  timely 2000 (InMemoryUserService.CreateUser seeded (envOf "004" 2000)
                 "Johnny" "johnny@example.com").1
  ∧ timely 2000 (InMemoryUserService.UpdateUser seeded (envOf "004" 2000)
                   johnID "Johnny" "johnny@example.com").1
  ∧ timely 2000 (InMemoryUserService.DeleteUser seeded johnID).1.
Proof.
  apply (timestamps_stay_ordered 1002 seeded (envOf "004" 2000) johnID
           "Johnny" "johnny@example.com").
  - apply timely_seeded.
  - vm_compute. discriminate.
Defined.

(** ** The handlers over any service *)

Section AnyService.

Variable decodeCreateUserRequest : string → option (string * string).
Variable decodeUpdateUserRequest : string → option (string * string).
Context {S : Type} `{UserService S}.

(** Property X19.  A body that does not decode is answered with 400 before
    the service is called: a POST that arrives for [/users] or [/users/]
    and a PUT that arrives in canonical form for [/users/{id}], with such a
    body, leave the service as it was, whatever the service. *)
Theorem undecodable_body_is_400 (service : S) (e : Env) (r : Request)
    (id : string) :
  (Method r = MethodPost
   ∧ (EscapedPath r = "/users" ∨ EscapedPath r = "/users/")
   ∧ decodeCreateUserRequest (RequestBody r) = None)
  ∨ (Method r = MethodPut ∧ id ≠ "" ∧ URLPath r = "/users/" +:+ id
     ∧ GoString.HasPrefix (EscapedPath r) "/users/" = true
     ∧ ServeMux.cleanPath (EscapedPath r) = EscapedPath r
     ∧ decodeUpdateUserRequest (RequestBody r) = None) →
  mux decodeCreateUserRequest decodeUpdateUserRequest service e r
  = (service, Handled (writeErrorResponse StatusBadRequest "invalid JSON body")).
Proof.
  intros [(Hm & Hp & Hd) | (Hm & Hid & Hp & Hprefix & Hclean & Hd)].
  - rewrite (mux_users _ _ service e r Hp), Hm.
    rewrite (bool_decide_eq_false_2 (MethodPost = MethodGet)) by discriminate.
    rewrite (bool_decide_eq_true_2 (MethodPost = MethodPost)) by reflexivity.
    unfold handleCreateUser. now rewrite Hd.
  - rewrite (mux_user _ _ service e r id Hid Hp Hprefix Hclean), Hm.
    rewrite (bool_decide_eq_false_2 (MethodPut = MethodGet)) by discriminate.
    rewrite (bool_decide_eq_true_2 (MethodPut = MethodPut)) by reflexivity.
    unfold handleUpdateUser. now rewrite Hd.
Qed.

Lemma handleError_plain (err : error) :
  match ResponseBody (handleError err) with
  | ErrorJSON message => message ∈ plainMessages
  | _ => True
  end.
Proof.
  unfold handleError. destruct (IsAppError err); cbn; [exact I | in_list].
Qed.

(** Property X24.  The plain error responses that reach a client carry one
    of three messages: method not allowed, invalid JSON body, internal server
    error.  The last branch of [ServeHTTP], with its message endpoint not
    found, is never taken for a request that comes through the mux: the
    decoded paths of the requests that the mux gives to [ServeHTTP] all start
    with [/users/] or are [/users]. *)
Theorem mux_plain_messages (service : S) (e : Env) (r : Request) :
  match (mux decodeCreateUserRequest decodeUpdateUserRequest service e r).2
  with
  | Handled response =>
      match ResponseBody response with
      | ErrorJSON message => message ∈ plainMessages
      | _ => True
      end
  | Redirect _ => True
  end.
Proof.
  assert (∀ (A : Type) (f : A → Body) (q : S * result A)
            (code : Z),
            (∀ a, match f a with
                  | ErrorJSON message => message ∈ plainMessages
                  | _ => True
                  end) →
            match ResponseBody
                    (match q with
                     | (s, Err err) => (s, handleError err)
                     | (s, Ok a) => (s, writeJSONResponse code (f a))
                     end).2
            with
            | ErrorJSON message => message ∈ plainMessages
            | _ => True
            end) as Hres.
  { intros A f [s [a | err]] code Hf; [apply Hf | apply handleError_plain]. }
  assert (∀ s : S,
            match ResponseBody
                    (s, writeErrorResponse StatusMethodNotAllowed
                          "method not allowed").2
            with
            | ErrorJSON message => message ∈ plainMessages
            | _ => True
            end) as H405 by (intros s; cbn; in_list).
  assert (∀ (P : Prop) `{Decision P} (a b : S * Response),
            (match ResponseBody a.2 with
             | ErrorJSON message => message ∈ plainMessages
             | _ => True
             end) →
            (match ResponseBody b.2 with
             | ErrorJSON message => message ∈ plainMessages
             | _ => True
             end) →
            match ResponseBody (if bool_decide P then a else b).2 with
            | ErrorJSON message => message ∈ plainMessages
            | _ => True
            end) as Hif.
  { intros P ? a b Ha Hb. destruct (bool_decide P); assumption. }
  assert (∀ s : S,
            match ResponseBody (handleGetUsers s).2 with
            | ErrorJSON message => message ∈ plainMessages
            | _ => True
            end) as HgetAll.
  { intros s. unfold handleGetUsers.
    apply (Hres _ UsersJSON). intros; exact I. }
  assert (∀ (s : S) id,
            match ResponseBody (handleGetUser s id).2 with
            | ErrorJSON message => message ∈ plainMessages
            | _ => True
            end) as HgetOne.
  { intros s id. unfold handleGetUser.
    apply (Hres _ UserJSON). intros; exact I. }
  assert (∀ s : S,
            match ResponseBody
                    (handleCreateUser decodeCreateUserRequest s e r).2 with
            | ErrorJSON message => message ∈ plainMessages
            | _ => True
            end) as Hcreate.
  { intros s. unfold handleCreateUser.
    destruct (decodeCreateUserRequest _) as [[name email] |];
      [| cbn; in_list].
    apply (Hres _ UserJSON). intros; exact I. }
  assert (∀ (s : S) id,
            match ResponseBody
                    (handleUpdateUser decodeUpdateUserRequest s e r id).2 with
            | ErrorJSON message => message ∈ plainMessages
            | _ => True
            end) as Hupdate.
  { intros s id. unfold handleUpdateUser.
    destruct (decodeUpdateUserRequest _) as [[name email] |];
      [| cbn; in_list].
    apply (Hres _ UserJSON). intros; exact I. }
  assert (∀ (s : S) id,
            match ResponseBody (handleDeleteUser s id).2 with
            | ErrorJSON message => message ∈ plainMessages
            | _ => True
            end) as Hdelete.
  { intros s id. unfold handleDeleteUser.
    destruct (DeleteUser s id) as [s' [err |]];
      [apply handleError_plain | exact I]. }
  unfold mux.
  destruct (findHandler_cases r)
    as [(_ & _ & ->) | [[-> Hpath] | [[-> _] | ->]]].
  - exact I.
  - unfold handled. cbn [snd].
    assert (URLPath r = "/users" ∨ URLPath r = "/users/"
            ∨ ∃ id, id ≠ "" ∧ URLPath r = "/users/" +:+ id) as Hshape.
    { destruct Hpath as [Hpath | [[| c u] Hpath]]; [auto | auto |].
      right; right. exists (String c u). split; [discriminate | exact Hpath]. }
    destruct Hshape as [Hp | [Hp | (id & Hid & Hp)]].
    + rewrite ServeHTTP_users by auto. repeat apply Hif;
        first [apply HgetAll | apply HgetOne | apply Hcreate | apply Hupdate
              | apply Hdelete | apply H405].
    + rewrite ServeHTTP_users by auto. repeat apply Hif;
        first [apply HgetAll | apply HgetOne | apply Hcreate | apply Hupdate
              | apply Hdelete | apply H405].
    + rewrite (ServeHTTP_user _ _ service e r id Hid Hp). repeat apply Hif;
        first [apply HgetAll | apply HgetOne | apply Hcreate | apply Hupdate
              | apply Hdelete | apply H405].
  - exact I.
  - unfold handled, rootHandler. cbn [snd].
    destruct (bool_decide _); exact I.
Qed.

End AnyService.

Lemma undecodable_body_is_400_witness :
  mux noJSON noJSON seeded (envOf "004" 2000)
    (request "POST" "/users" eq_refl)
  = (seeded, Handled (writeErrorResponse StatusBadRequest "invalid JSON body")).
Proof.
  apply (undecodable_body_is_400 noJSON noJSON seeded (envOf "004" 2000)
           (request "POST" "/users" eq_refl) "").
  left. split; [reflexivity |]. split; [left |]; reflexivity.
Defined.

(** ** The handlers over the in-memory service *)

(** The in-memory service constructs no other errors than Validation,
    NotFound and Conflict errors. *)
Lemma InMemoryUserService_errors (users : gmap string User) (e : Env)
    (id name email : string) (err : error) :
  (InMemoryUserService.GetUserByID users id).2 = Err err
  ∨ (InMemoryUserService.CreateUser users e name email).2 = Err err
  ∨ (InMemoryUserService.UpdateUser users e id name email).2 = Err err
  ∨ (InMemoryUserService.DeleteUser users id).2 = Some err →
  serviceError err.
Proof.
  assert (serviceError (AppErr (NewNotFoundError "user" id))) as Hnf
    by (eexists; split; [reflexivity | right; left; reflexivity]).
  assert (serviceError (AppErr (NewConflictError "email already exists")))
    as Hcf by (eexists; split; [reflexivity | right; right; reflexivity]).
  assert (∀ u a, Validate u = Some a → serviceError (AppErr a)) as Hval.
  { intros u a Hu. destruct (Validate_Some u a Hu) as [Hty _].
    eexists; split; [reflexivity | left; exact Hty]. }
  intros [Hg | [Hc | [Hu | Hd]]].
  - unfold InMemoryUserService.GetUserByID in Hg.
    destruct (users !! id); [discriminate |]. injection Hg as <-. exact Hnf.
  - unfold InMemoryUserService.CreateUser in Hc.
    destruct (InMemoryUserService.checkEmailExists users email) as [c |] eqn:E.
    + apply checkEmailExists_Some in E as [-> _]. injection Hc as <-. exact Hcf.
    + destruct (Validate _) eqn:Ev; [| discriminate].
      injection Hc as <-. eapply Hval, Ev.
  - unfold InMemoryUserService.UpdateUser in Hu.
    destruct (users !! id); [| injection Hu as <-; exact Hnf].
    destruct (_ && _); [injection Hu as <-; exact Hcf |].
    destruct (Validate _) eqn:Ev; [| discriminate].
    injection Hu as <-. eapply Hval, Ev.
  - unfold InMemoryUserService.DeleteUser in Hd.
    destruct (users !! id); [discriminate |]. injection Hd as <-. exact Hnf.
Qed.

Lemma handleError_serviceError (err : error) :
  serviceError err →
  StatusCode (handleError err)
  ∈ [StatusBadRequest; StatusNotFound; StatusConflict].
Proof.
  intros (a & -> & [Hty | [Hty | Hty]]);
    unfold handleError, HTTPStatusCode; cbn [IsAppError]; rewrite Hty;
    cbn; in_list.
Qed.

Lemma expected_of_error (code : Z) :
  code ∈ [StatusBadRequest; StatusNotFound; StatusConflict] →
  code ∈ expectedStatuses.
Proof.
  intros Hin.
  repeat (apply elem_of_cons in Hin as [-> | Hin]); [.. | inversion Hin];
    in_list.
Qed.

(** Property X18.  Over the in-memory service the server never answers
    with 500: whatever the request and the decoders, the answer is the
    redirect of the mux or a response whose status is one of 200, 201, 204,
    400, 404, 405 and 409, since every error that the service constructs is a
    Validation, a NotFound or a Conflict error. *)
Theorem mux_never_500 (decodeCreateUserRequest decodeUpdateUserRequest
    : string → option (string * string))
    (users : gmap string User) (e : Env) (r : Request) :
  match (mux decodeCreateUserRequest decodeUpdateUserRequest users e r).2
  with
  | Handled response => StatusCode response ∈ expectedStatuses
  | Redirect _ => True
  end.
Proof.
  assert (∀ err, serviceError err →
            StatusCode (handleError err) ∈ expectedStatuses) as Herr
    by (intros err Hs; apply expected_of_error, handleError_serviceError, Hs).
  assert (∀ (P : Prop) `{Decision P} (a b : gmap string User * Response),
            StatusCode a.2 ∈ expectedStatuses →
            StatusCode b.2 ∈ expectedStatuses →
            StatusCode (if bool_decide P then a else b).2 ∈ expectedStatuses)
    as Hif by (intros P ? a b Ha Hb; destruct (bool_decide P); assumption).
  assert (∀ s : gmap string User,
            StatusCode (s, writeErrorResponse StatusMethodNotAllowed
                             "method not allowed").2 ∈ expectedStatuses)
    as H405 by (intros s; cbn; in_list).
  assert (∀ s : gmap string User,
            StatusCode (handleGetUsers s).2 ∈ expectedStatuses) as HgetAll
    by (intros s; cbn; in_list).
  assert (∀ (s : gmap string User) id,
            StatusCode (handleGetUser s id).2 ∈ expectedStatuses) as HgetOne.
  { intros s id. unfold handleGetUser. cbn [GetUserByID inMemoryUserService].
    destruct (InMemoryUserService.GetUserByID s id) as [s' [u | err]] eqn:E;
      [cbn; in_list |].
    apply Herr, (InMemoryUserService_errors s e id "" "" err).
    left. now rewrite E. }
  assert (∀ s : gmap string User,
            StatusCode (handleCreateUser decodeCreateUserRequest s e r).2
            ∈ expectedStatuses) as Hcreate.
  { intros s. unfold handleCreateUser.
    destruct (decodeCreateUserRequest _) as [[name email] |];
      [| cbn; in_list].
    cbn [CreateUser inMemoryUserService].
    destruct (InMemoryUserService.CreateUser s e name email)
      as [s' [u | err]] eqn:E; [cbn; in_list |].
    apply Herr, (InMemoryUserService_errors s e "" name email err).
    right; left. now rewrite E. }
  assert (∀ (s : gmap string User) id,
            StatusCode (handleUpdateUser decodeUpdateUserRequest s e r id).2
            ∈ expectedStatuses) as Hupdate.
  { intros s id. unfold handleUpdateUser.
    destruct (decodeUpdateUserRequest _) as [[name email] |];
      [| cbn; in_list].
    cbn [UpdateUser inMemoryUserService].
    destruct (InMemoryUserService.UpdateUser s e id name email)
      as [s' [u | err]] eqn:E; [cbn; in_list |].
    apply Herr, (InMemoryUserService_errors s e id name email err).
    right; right; left. now rewrite E. }
  assert (∀ (s : gmap string User) id,
            StatusCode (handleDeleteUser s id).2 ∈ expectedStatuses)
    as Hdelete.
  { intros s id. unfold handleDeleteUser.
    cbn [DeleteUser inMemoryUserService].
    destruct (InMemoryUserService.DeleteUser s id) as [s' [err |]] eqn:E;
      [| cbn; in_list].
    apply Herr, (InMemoryUserService_errors s e id "" "" err).
    right; right; right. now rewrite E. }
  unfold mux.
  destruct (findHandler_cases r)
    as [(_ & _ & ->) | [[-> Hpath] | [[-> _] | ->]]].
  - exact I.
  - unfold handled. cbn [snd].
    assert (URLPath r = "/users" ∨ URLPath r = "/users/"
            ∨ ∃ id, id ≠ "" ∧ URLPath r = "/users/" +:+ id) as Hshape.
    { destruct Hpath as [Hpath | [[| c u] Hpath]]; [auto | auto |].
      right; right. exists (String c u). split; [discriminate | exact Hpath]. }
    destruct Hshape as [Hp | [Hp | (id & Hid & Hp)]].
    + rewrite ServeHTTP_users by auto. repeat apply Hif;
        first [apply HgetAll | apply Hcreate | apply H405].
    + rewrite ServeHTTP_users by auto. repeat apply Hif;
        first [apply HgetAll | apply Hcreate | apply H405].
    + rewrite (ServeHTTP_user _ _ users e r id Hid Hp). repeat apply Hif;
        first [apply HgetOne | apply Hupdate | apply Hdelete | apply H405].
  - cbn; in_list.
  - unfold handled, rootHandler. cbn [snd].
    destruct (bool_decide _); cbn; in_list.
Qed.

(** Property X20.  A POST that arrives for [/users] or [/users/] and whose
    body decodes to a name and an email is answered by one of three
    responses, decided by the name, the email and the stored emails alone:
    409 with the Conflict error when a stored user holds the email; else 400
    with a Validation error when the name is empty or the email fails the
    rule; else 201 with the new user, which is then in the map.  In the first
    two cases the map is left as it was. *)
Theorem post_users_response (decodeCreateUserRequest decodeUpdateUserRequest
    : string → option (string * string))
    (users : gmap string User) (e : Env) (r : Request) (name email : string) :
  Method r = MethodPost →
  EscapedPath r = "/users" ∨ EscapedPath r = "/users/" →
  decodeCreateUserRequest (RequestBody r) = Some (name, email) →
  let answer :=
    mux decodeCreateUserRequest decodeUpdateUserRequest users e r in
  ((∃ id u, users !! id = Some u ∧ Email u = email)
   ∧ answer
     = (users,
        Handled
          {| StatusCode := StatusConflict;
             ResponseBody :=
               AppErrorJSON ErrorTypeConflict "email already exists" "" |}))
  ∨ ((∀ id u, users !! id = Some u → Email u ≠ email)
     ∧ (name = "" ∨ isValidEmail email = false)
     ∧ ∃ message : string,
         answer
         = (users,
            Handled
              {| StatusCode := StatusBadRequest;
                 ResponseBody :=
                   AppErrorJSON ErrorTypeValidation message
                     (if bool_decide (name = "") then "name" else "email") |}))
  ∨ ((∀ id u, users !! id = Some u → Email u ≠ email)
     ∧ name ≠ "" ∧ isValidEmail email = true
     ∧ answer
       = (<[generateID (rnd e) := NewUser e name email]> users,
          Handled
            {| StatusCode := StatusCreated;
               ResponseBody := UserJSON (NewUser e name email) |})).
Proof.
  intros Hm Hp Hd answer. subst answer.
  rewrite (mux_users _ _ users e r Hp), Hm.
  rewrite (bool_decide_eq_false_2 (MethodPost = MethodGet)) by discriminate.
  rewrite (bool_decide_eq_true_2 (MethodPost = MethodPost)) by reflexivity.
  unfold handleCreateUser. rewrite Hd.
  cbn [CreateUser inMemoryUserService].
  unfold InMemoryUserService.CreateUser.
  destruct (InMemoryUserService.checkEmailExists users email) as [c |] eqn:Hchk.
  - apply checkEmailExists_Some in Hchk as [-> Hheld]. left.
    split; [exact Hheld | reflexivity].
  - pose proof (proj1 (checkEmailExists_None users email) Hchk) as Hfree.
    right.
    destruct (decide (name = "")) as [Hn | Hn].
    { left. destruct (Validate_NewUser_Some e name email (or_introl Hn))
        as [message ->].
      split; [exact Hfree |]. split; [auto |]. exists message. reflexivity. }
    destruct (isValidEmail email) eqn:He.
    + right.
      assert (Validate (NewUser e name email) = None) as ->
        by (apply Validate_None; auto).
      repeat split; auto.
    + left. destruct (Validate_NewUser_Some e name email (or_intror He))
        as [message ->].
      split; [exact Hfree |]. split; [auto |]. exists message. reflexivity.
Qed.

(** Property X21.  For a request that arrives in canonical form for
    [/users/{id}], over the in-memory service, a GET is answered with 200 and
    the stored user when the id is stored, a DELETE with 204 and no body, the
    user being removed; for an id that is not stored both are answered with
    404 and the NotFound error, and the map is left as it was. *)
Theorem user_item_response (decodeCreateUserRequest decodeUpdateUserRequest
    : string → option (string * string))
    (users : gmap string User) (e : Env) (r : Request) (id : string) :
  id ≠ "" → URLPath r = "/users/" +:+ id →
  GoString.HasPrefix (EscapedPath r) "/users/" = true →
  ServeMux.cleanPath (EscapedPath r) = EscapedPath r →
  Method r = MethodGet ∨ Method r = MethodDelete →
  mux decodeCreateUserRequest decodeUpdateUserRequest users e r
  = match users !! id with
    | Some user =>
        if bool_decide (Method r = MethodGet) then
          (users,
           Handled {| StatusCode := StatusOK; ResponseBody := UserJSON user |})
        else
          (delete id users,
           Handled {| StatusCode := StatusNoContent; ResponseBody := Empty |})
    | None =>
        (users,
         Handled
           {| StatusCode := StatusNotFound;
              ResponseBody :=
                AppErrorJSON ErrorTypeNotFound
                  ("user with id '" +:+ id +:+ "' not found") "" |})
    end.
Proof.
  intros Hid Hp Hprefix Hclean Hm.
  rewrite (mux_user _ _ users e r id Hid Hp Hprefix Hclean).
  destruct Hm as [Hm | Hm]; rewrite Hm.
  - rewrite (bool_decide_eq_true_2 (MethodGet = MethodGet)) by reflexivity.
    unfold handleGetUser. cbn [GetUserByID inMemoryUserService].
    unfold InMemoryUserService.GetUserByID.
    destruct (users !! id); reflexivity.
  - rewrite (bool_decide_eq_false_2 (MethodDelete = MethodGet)),
      (bool_decide_eq_false_2 (MethodDelete = MethodPut)) by discriminate.
    rewrite (bool_decide_eq_true_2 (MethodDelete = MethodDelete))
      by reflexivity.
    unfold handleDeleteUser. cbn [DeleteUser inMemoryUserService].
    unfold InMemoryUserService.DeleteUser.
    destruct (users !! id); reflexivity.
Qed.

(** Property X22.  A GET never changes the in-memory service: whatever its
    path and body, the map after the request is the map before it. *)
Theorem get_changes_nothing (decodeCreateUserRequest decodeUpdateUserRequest
    : string → option (string * string))
    (users : gmap string User) (e : Env) (r : Request) :
  Method r = MethodGet →
  (mux decodeCreateUserRequest decodeUpdateUserRequest users e r).1 = users.
Proof.
  intros Hm. unfold mux.
  destruct (findHandler_cases r)
    as [(_ & _ & ->) | [[-> Hpath] | [[-> _] | ->]]]; try reflexivity.
  unfold handled. cbn [fst].
  assert (URLPath r = "/users" ∨ URLPath r = "/users/"
          ∨ ∃ id, id ≠ "" ∧ URLPath r = "/users/" +:+ id) as Hshape.
  { destruct Hpath as [Hpath | [[| c u] Hpath]]; [auto | auto |].
    right; right. exists (String c u). split; [discriminate | exact Hpath]. }
  destruct Hshape as [Hp | [Hp | (id & Hid & Hp)]].
  - rewrite ServeHTTP_users by auto.
    rewrite (bool_decide_eq_true_2 _ Hm). reflexivity.
  - rewrite ServeHTTP_users by auto.
    rewrite (bool_decide_eq_true_2 _ Hm). reflexivity.
  - rewrite (ServeHTTP_user _ _ users e r id Hid Hp).
    rewrite (bool_decide_eq_true_2 _ Hm).
    unfold handleGetUser. cbn [GetUserByID inMemoryUserService].
    unfold InMemoryUserService.GetUserByID.
    destruct (users !! id); reflexivity.
Qed.

Lemma post_users_response_witness :
  let users := seeded in
  let e := envOf "004" 2000 in
  let name := "Alice" in
  let email := "alice@example.com" in
  let answer :=
    mux (fixedJSON name email) noJSON users e
      (request "POST" "/users" eq_refl) in
  ((∃ id u, users !! id = Some u ∧ Email u = email)
   ∧ answer
     = (users,
        Handled
          {| StatusCode := StatusConflict;
             ResponseBody :=
               AppErrorJSON ErrorTypeConflict "email already exists" "" |}))
  ∨ ((∀ id u, users !! id = Some u → Email u ≠ email)
     ∧ (name = "" ∨ isValidEmail email = false)
     ∧ ∃ message : string,
         answer
         = (users,
            Handled
              {| StatusCode := StatusBadRequest;
                 ResponseBody :=
                   AppErrorJSON ErrorTypeValidation message
                     (if bool_decide (name = "") then "name" else "email") |}))
  ∨ ((∀ id u, users !! id = Some u → Email u ≠ email)
     ∧ name ≠ "" ∧ isValidEmail email = true
     ∧ answer
       = (<[generateID (rnd e) := NewUser e name email]> users,
          Handled
            {| StatusCode := StatusCreated;
               ResponseBody := UserJSON (NewUser e name email) |})).
Proof.
  apply (post_users_response (fixedJSON "Alice" "alice@example.com") noJSON
           seeded (envOf "004" 2000) (request "POST" "/users" eq_refl)
           "Alice" "alice@example.com").
  - reflexivity.
  - left. reflexivity.
  - reflexivity.
Defined.

Lemma user_item_response_witness :
  mux noJSON noJSON seeded (envOf "004" 2000)
    (request "DELETE" "/users/0101010101010101" eq_refl)
  = (delete johnID seeded,
     Handled {| StatusCode := StatusNoContent; ResponseBody := Empty |}).
Proof.
  assert (seeded !! johnID
          = Some {| ID := johnID; Name := "John Doe";
                    Email := "john.doe@example.com";
                    CreatedAt := 1000; UpdatedAt := 1000 |}) as Hjohn
    by (vm_compute; reflexivity).
  pose proof (user_item_response noJSON noJSON seeded (envOf "004" 2000)
                (request "DELETE" "/users/0101010101010101" eq_refl) johnID)
    as Hitem.
  rewrite Hjohn in Hitem. apply Hitem.
  - discriminate.
  - reflexivity.
  - reflexivity.
  - reflexivity.
  - right. reflexivity.
Defined.

Lemma get_changes_nothing_witness :
  (mux noJSON noJSON seeded (envOf "004" 2000)
     (request "GET" "/users/0101010101010101" eq_refl)).1 = seeded.
Proof.
  apply (get_changes_nothing noJSON noJSON seeded (envOf "004" 2000)
           (request "GET" "/users/0101010101010101" eq_refl)).
  reflexivity.
Defined.

(** Property X29.  A PUT that arrives in canonical form for [/users/{id}],
    the id of a stored user, in a map that calls made one after the other can
    leave behind, whose body decodes to an empty name or to an email that is
    empty or fails the rule, and whose email no other user holds, is not
    refused: it is answered with 200 and the stored user as it was, and
    nothing is changed. *)
Theorem put_invalid_is_ignored (decodeCreateUserRequest decodeUpdateUserRequest
    : string → option (string * string))
    (users : gmap string User) (e : Env) (r : Request)
    (id name email : string) (user : User) :
  reachable users → users !! id = Some user →
  id ≠ "" → URLPath r = "/users/" +:+ id →
  GoString.HasPrefix (EscapedPath r) "/users/" = true →
  ServeMux.cleanPath (EscapedPath r) = EscapedPath r →
  Method r = MethodPut →
  decodeUpdateUserRequest (RequestBody r) = Some (name, email) →
  name = "" ∨ isValidEmail email = false →
  (∀ id' u, users !! id' = Some u → id' ≠ id → Email u ≠ email) →
  mux decodeCreateUserRequest decodeUpdateUserRequest users e r
  = (users,
     Handled {| StatusCode := StatusOK; ResponseBody := UserJSON user |}).
Proof.
  intros Hr Hlook Hid Hp Hprefix Hclean Hm Hd Hbad Hfree.
  destruct (reachable_consistent users Hr) as (_ & Hk & Hv).
  rewrite (mux_user _ _ users e r id Hid Hp Hprefix Hclean), Hm.
  rewrite (bool_decide_eq_false_2 (MethodPut = MethodGet)) by discriminate.
  rewrite (bool_decide_eq_true_2 (MethodPut = MethodPut)) by reflexivity.
  unfold handleUpdateUser. rewrite Hd.
  cbn [UpdateUser inMemoryUserService].
  unfold InMemoryUserService.UpdateUser. rewrite Hlook.
  assert (InMemoryUserService.emailTakenByOther users id email = false)
    as ->.
  { destruct (InMemoryUserService.emailTakenByOther users id email) eqn:Ht;
      [| reflexivity].
    apply emailTakenByOther_true in Ht as (k & u & Hku & Hne & Hem).
    exfalso. apply (Hfree k u Hku); [| exact Hem].
    intros ->. apply Hne. eapply Hk, Hku. }
  rewrite andb_false_r.
  rewrite Update_invalid by exact Hbad.
  rewrite (Hv id user Hlook), insert_id by exact Hlook.
  reflexivity.
Qed.

Lemma put_invalid_is_ignored_witness :
  mux noJSON (fixedJSON "Johnny" "invalid-email") seeded (envOf "004" 2000)
    (request "PUT" "/users/0101010101010101" eq_refl)
  = (seeded,
     Handled
       {| StatusCode := StatusOK;
          ResponseBody :=
            UserJSON {| ID := johnID; Name := "John Doe";
                        Email := "john.doe@example.com";
                        CreatedAt := 1000; UpdatedAt := 1000 |} |}).
Proof.
  apply (put_invalid_is_ignored noJSON (fixedJSON "Johnny" "invalid-email")
           seeded (envOf "004" 2000)
           (request "PUT" "/users/0101010101010101" eq_refl)
           johnID "Johnny" "invalid-email").
  - apply reachable_new.
  - vm_compute. reflexivity.
  - discriminate.
  - reflexivity.
  - reflexivity.
  - reflexivity.
  - reflexivity.
  - reflexivity.
  - right. vm_compute. reflexivity.
  - intros id' u Hu _. revert id' u Hu.
    apply checkEmailExists_None. vm_compute. reflexivity.
Defined.

(** ** Interleaved calls of [CreateUser] *)

Lemma step_keeps_arguments (users : gmap string User) (c : Concurrent.call) :
  Concurrent.callEnv (Concurrent.step users c).2 = Concurrent.callEnv c
  ∧ Concurrent.callName (Concurrent.step users c).2 = Concurrent.callName c
  ∧ Concurrent.callEmail (Concurrent.step users c).2 = Concurrent.callEmail c.
Proof.
  unfold Concurrent.step.
  destruct (Concurrent.callPC c); [| auto | auto].
  destruct (InMemoryUserService.checkEmailExists _ _); [auto |].
  destruct (Validate _); auto.
Qed.

Lemma step_sound (users : gmap string User) (c : Concurrent.call) :
  keyedByID users → allValid users → holdsValid c →
  keyedByID (Concurrent.step users c).1
  ∧ allValid (Concurrent.step users c).1
  ∧ holdsValid (Concurrent.step users c).2.
Proof.
  intros Hk Hv Hc. unfold Concurrent.step, holdsValid in *.
  destruct (Concurrent.callPC c) as [| user | res] eqn:Hpc.
  - destruct (InMemoryUserService.checkEmailExists _ _);
      [cbn; auto |].
    destruct (Validate _) eqn:Hval; cbn; auto.
  - cbn. split; [| split; [| exact I]].
    + intros id u Hu. rewrite lookup_insert in Hu.
      case_decide; simplify_eq; [reflexivity | eauto].
    + intros id u Hu. rewrite lookup_insert in Hu.
      case_decide; simplify_eq; [assumption | eauto].
  - cbn. rewrite Hpc. auto.
Qed.

(** Property X25.  What a race between calls of [CreateUser] cannot break:
    under every schedule, every stored user still passes [Validate] and is
    still stored under its own id.  Only the uniqueness of the emails depends
    on the order of the steps. *)
Theorem interleaving_keeps_records_sound (schedule : list nat)
    (users : gmap string User) (calls : list Concurrent.call) :
  keyedByID users → allValid users → Forall holdsValid calls →
  keyedByID (Concurrent.run schedule users calls).1
  ∧ allValid (Concurrent.run schedule users calls).1
  ∧ Forall holdsValid (Concurrent.run schedule users calls).2.
Proof.
  revert users calls.
  induction schedule as [| i schedule IH]; intros users calls Hk Hv Hc;
    cbn [Concurrent.run]; [auto |].
  destruct (calls !! i) as [c |] eqn:Hi; [| apply IH; assumption].
  assert (holdsValid c) as Hci
    by (eapply Forall_lookup_1; eassumption).
  destruct (step_sound users c Hk Hv Hci) as (Hk' & Hv' & Hc').
  destruct (Concurrent.step users c) as [users' c'].
  apply IH; [exact Hk' | exact Hv' |].
  apply Forall_insert; assumption.
Qed.

Lemma interleaving_keeps_records_sound_witness :
  let calls := [Concurrent.newCall (envOf "004" 2000) "Ann" "dup@example.com";
                Concurrent.newCall (envOf "005" 2001) "Bea" "dup@example.com"] in
  let after := Concurrent.run [0%nat; 1%nat; 0%nat; 1%nat] seeded calls in
  keyedByID after.1 ∧ allValid after.1 ∧ Forall holdsValid after.2.
Proof.
  apply (interleaving_keeps_records_sound [0%nat; 1%nat; 0%nat; 1%nat] seeded).
  - apply (reachable_consistent seeded), reachable_new.
  - apply (reachable_consistent seeded), reachable_new.
  - repeat constructor.
Defined.

Lemma raceFree_step (users : gmap string User) (calls : list Concurrent.call)
    (i : nat) (c : Concurrent.call) :
  raceFree users calls → calls !! i = Some c →
  raceFree (Concurrent.step users c).1
           (<[i := (Concurrent.step users c).2]> calls)
  ∧ (stage (Concurrent.step users c).2 = Nat.min 2 (S (stage c))).
Proof.
  intros (Hall & Hnd & Hfree) Hi.
  pose proof (Forall_lookup_1 _ _ _ _ Hall Hi) as (Hn & He & Htrack).
  destruct (step_keeps_arguments users c) as (_ & Hname & Hemail).
  assert (Concurrent.callEmail <$> <[i := (Concurrent.step users c).2]> calls
          = Concurrent.callEmail <$> calls) as Hemails.
  { rewrite list_fmap_insert, Hemail.
    apply list_insert_id. now rewrite list_lookup_fmap, Hi. }
  assert (∀ j d, j ≠ i →
            <[i := (Concurrent.step users c).2]> calls !! j = Some d →
            calls !! j = Some d) as Hother
    by (intros j d Hne Hj; now rewrite list_lookup_insert_ne in Hj).
  assert (∀ j d, j ≠ i → calls !! j = Some d →
            Concurrent.callEmail d ≠ Concurrent.callEmail c) as Hdiff.
  { intros j d Hne Hj Heq. apply Hne.
    eapply (NoDup_lookup _ j i); [exact Hnd | |].
    - rewrite list_lookup_fmap, Hj. reflexivity.
    - rewrite list_lookup_fmap, Hi. cbn. now rewrite Heq. }
  assert (i < length calls)%nat as Hlen by (eapply lookup_lt_Some, Hi).
  clear Hname Hemail.
  destruct (Concurrent.callPC c) as [| user | [u | err]] eqn:Hpc.
  - (* the scan *)
    assert (stage c = 0%nat) as Hst0 by (unfold stage; now rewrite Hpc).
    assert (∀ id u, users !! id = Some u → Email u ≠ Concurrent.callEmail c)
      as Hfree0 by (intros id u Hu; apply (Hfree i c id u Hi); [lia | exact Hu]).
    set (user := NewUser (Concurrent.callEnv c) (Concurrent.callName c)
                   (Concurrent.callEmail c)).
    assert (Concurrent.step users c
            = (users, Concurrent.at_pc c (Concurrent.AtInsert user))) as Hstep.
    { unfold Concurrent.step. rewrite Hpc.
      rewrite (proj2 (checkEmailExists_None users _) Hfree0). fold user.
      assert (Validate user = None) as -> by (apply Validate_None; auto).
      reflexivity. }
    rewrite Hstep in *. cbn [fst snd] in *. rewrite Hst0.
    split; [| reflexivity].
    split; [| split; [rewrite Hemails; exact Hnd |]].
    + apply Forall_insert; [exact Hall |].
      unfold onTrack. cbn. auto.
    + intros j d id u Hj Hst Hu.
      destruct (decide (j = i)) as [-> | Hne].
      * rewrite list_lookup_insert_eq in Hj by exact Hlen.
        injection Hj as <-. cbn. apply (Hfree0 id u Hu).
      * eapply Hfree; [eapply Hother; eassumption | exact Hst | exact Hu].
  - (* the insertion *)
    assert (Email user = Concurrent.callEmail c) as Huser
      by (unfold onTrack in Htrack; now rewrite Hpc in Htrack).
    assert (stage c = 1%nat) as Hst1 by (unfold stage; now rewrite Hpc).
    assert (Concurrent.step users c
            = (<[ID user := user]> users,
               Concurrent.at_pc c (Concurrent.Returned (Ok user)))) as Hstep
      by (unfold Concurrent.step; now rewrite Hpc).
    rewrite Hstep in *. cbn [fst snd] in *. rewrite Hst1.
    split; [| reflexivity].
    split; [| split; [rewrite Hemails; exact Hnd |]].
    + apply Forall_insert; [exact Hall |].
      unfold onTrack. cbn. auto.
    + intros j d id u Hj Hst Hu.
      destruct (decide (j = i)) as [-> | Hne].
      * rewrite list_lookup_insert_eq in Hj by exact Hlen.
        injection Hj as <-. cbn in Hst. lia.
      * pose proof (Hother j d Hne Hj) as Hj'.
        rewrite lookup_insert in Hu. case_decide.
        -- injection Hu as <-. rewrite Huser.
           intros Heq. apply (Hdiff j d Hne Hj'). congruence.
        -- eapply Hfree; [exact Hj' | exact Hst | exact Hu].
  - (* returned with a user *)
    assert (stage c = 2%nat) as Hst2 by (unfold stage; now rewrite Hpc).
    assert (Concurrent.step users c = (users, c)) as Hstep
      by (unfold Concurrent.step; now rewrite Hpc).
    rewrite Hstep. cbn [fst snd]. rewrite Hst2.
    split; [| reflexivity].
    rewrite list_insert_id by exact Hi.
    split; [exact Hall | split; [exact Hnd | exact Hfree]].
  - (* returned with an error: not on track *)
    unfold onTrack in Htrack. rewrite Hpc in Htrack. contradiction.
Qed.

Lemma run_raceFree (schedule : list nat) :
  ∀ (users : gmap string User) (calls : list Concurrent.call),
    raceFree users calls →
    raceFree (Concurrent.run schedule users calls).1
             (Concurrent.run schedule users calls).2
    ∧ ∀ (i : nat) (c : Concurrent.call),
        calls !! i = Some c →
        ∃ c' : Concurrent.call,
          (Concurrent.run schedule users calls).2 !! i = Some c'
          ∧ stage c' = Nat.min 2 (stage c + count_occ Nat.eq_dec schedule i).
Proof.
  induction schedule as [| i0 schedule IH]; intros users calls Hrf;
    cbn [Concurrent.run].
  - split; [exact Hrf |]. intros i c Hi. exists c. split; [exact Hi |].
    cbn [count_occ]. unfold stage.
    destruct (Concurrent.callPC c); cbn; lia.
  - destruct (calls !! i0) as [c0 |] eqn:Hi0.
    + destruct (raceFree_step users calls i0 c0 Hrf Hi0) as [Hrf' Hst].
      destruct (Concurrent.step users c0) as [users' c0'].
      cbn [fst snd] in Hrf', Hst.
      destruct (IH users' (<[i0 := c0']> calls) Hrf') as [Hrf'' Hprog].
      split; [exact Hrf'' |]. intros i c Hi.
      assert (i0 < length calls)%nat as Hlen by (eapply lookup_lt_Some, Hi0).
      destruct (decide (i = i0)) as [-> | Hne].
      * assert (c = c0) as -> by congruence.
        destruct (Hprog i0 c0') as (c' & Hc' & Hs');
          [apply list_lookup_insert_eq, Hlen |].
        exists c'. split; [exact Hc' |].
        rewrite Hs', Hst. cbn [count_occ].
        destruct (Nat.eq_dec i0 i0); [lia | contradiction].
      * destruct (Hprog i c) as (c' & Hc' & Hs');
          [rewrite list_lookup_insert_ne by congruence; exact Hi |].
        exists c'. split; [exact Hc' |].
        rewrite Hs'. cbn [count_occ].
        destruct (Nat.eq_dec i0 i); [congruence | reflexivity].
    + destruct (IH users calls Hrf) as [Hrf' Hprog].
      split; [exact Hrf' |]. intros i c Hi.
      destruct (Hprog i c Hi) as (c' & Hc' & Hs').
      exists c'. split; [exact Hc' |].
      rewrite Hs'. cbn [count_occ].
      destruct (Nat.eq_dec i0 i); [congruence | reflexivity].
Qed.

Lemma run_length (schedule : list nat) :
  ∀ (users : gmap string User) (calls : list Concurrent.call),
    length (Concurrent.run schedule users calls).2 = length calls.
Proof.
  induction schedule as [| i schedule IH]; intros users calls;
    cbn [Concurrent.run]; [reflexivity |].
  destruct (calls !! i); [| apply IH].
  destruct (Concurrent.step users _) as [users' c'].
  rewrite IH. apply length_insert.
Qed.

(** Property X26.  Calls of [CreateUser] with names that are not empty and
    valid emails that differ from one another and from every stored email
    never get in each other's way: in whatever order their steps are taken,
    once each call has made its two steps all of them have succeeded. *)
Theorem distinct_emails_all_succeed (schedule : list nat)
    (users : gmap string User) (calls : list Concurrent.call) :
  Forall (λ c, Concurrent.callPC c = Concurrent.AtCheck
               ∧ Concurrent.callName c ≠ ""
               ∧ isValidEmail (Concurrent.callEmail c) = true
               ∧ ∀ id u, users !! id = Some u →
                         Email u ≠ Concurrent.callEmail c) calls →
  NoDup (Concurrent.callEmail <$> calls) →
  (∀ i : nat, (i < length calls)%nat →
              (2 ≤ count_occ Nat.eq_dec schedule i)%nat) →
  Forall (λ c, Concurrent.succeeded c = true)
         (Concurrent.run schedule users calls).2.
Proof.
  intros Hcalls Hnd Htwice.
  assert (raceFree users calls) as Hrf.
  { split; [| split; [exact Hnd |]].
    - eapply Forall_impl; [exact Hcalls |].
      intros c (Hpc & Hn & He & _). unfold onTrack. rewrite Hpc. auto.
    - intros i c id u Hi _ Hu.
      pose proof (Forall_lookup_1 _ _ _ _ Hcalls Hi) as (_ & _ & _ & Hfree).
      eapply Hfree, Hu. }
  destruct (run_raceFree schedule users calls Hrf) as [(Hall & _ & _) Hprog].
  apply Forall_lookup_2. intros i c' Hi.
  assert (i < length calls)%nat as Hlen.
  { rewrite <- (run_length schedule users calls). eapply lookup_lt_Some, Hi. }
  destruct (lookup_lt_is_Some_2 calls i Hlen) as [c Hc].
  destruct (Hprog i c Hc) as (c'' & Hc'' & Hst).
  assert (c'' = c') as -> by congruence.
  pose proof (Htwice i Hlen) as H2.
  pose proof (Forall_lookup_1 _ _ _ _ Hall Hi) as (_ & _ & Htrack).
  unfold stage in Hst. unfold onTrack in Htrack. unfold Concurrent.succeeded.
  destruct (Concurrent.callPC c') as [| user | [u | err]];
    [lia | lia | reflexivity | contradiction].
Qed.

Lemma distinct_emails_all_succeed_witness :
  Forall (λ c, Concurrent.succeeded c = true)
    (Concurrent.run [1%nat; 0%nat; 0%nat; 1%nat] seeded
       [Concurrent.newCall (envOf "004" 2000) "Ann" "ann@example.com";
        Concurrent.newCall (envOf "005" 2001) "Bea" "bea@example.com"]).2.
Proof.
  apply (distinct_emails_all_succeed [1%nat; 0%nat; 0%nat; 1%nat] seeded).
  - repeat constructor; try discriminate;
      apply checkEmailExists_None; vm_compute; reflexivity.
  - vm_compute. repeat constructor; rewrite ?elem_of_cons;
      try (intros [H | H]; [discriminate H | inversion H]);
      try (intros H; inversion H).
  - intros [| [| i]] Hi; cbn in *; lia.
Defined.

(** ** [getEnv] and the server's address *)

Lemma getEnv_cases (environ : gmap string string) (key defaultValue : string) :
  getEnv environ key defaultValue
  = match environ !! key with
    | Some value => if bool_decide (value = "") then defaultValue else value
    | None => defaultValue
    end.
Proof.
  unfold getEnv, Getenv.
  destruct (environ !! key) as [value |]; cbn [default].
  - destruct (decide (value = "")) as [-> | Hv].
    + rewrite bool_decide_eq_false_2 by (intros Hne; now apply Hne).
      now rewrite bool_decide_eq_true_2.
    + rewrite bool_decide_eq_true_2 by exact Hv.
      now rewrite bool_decide_eq_false_2.
  - rewrite bool_decide_eq_false_2 by (intros Hne; now apply Hne).
    reflexivity.
Qed.

(** Property X27.  A variable that is set to the empty string counts as not
    set: [getEnv] then returns the default, as it does for a variable that is
    missing, and returns the variable's value in every other case.  So the
    address of the server always has a host and a port: [HOST] and [PORT]
    where they are set to something, [localhost] and [8080] where not. *)
Theorem serverAddr_has_host_and_port (environ : gmap string string) :
  ∃ host port : string,
    serverAddr environ = host +:+ ":" +:+ port
    ∧ host ≠ "" ∧ port ≠ ""
    ∧ host = match environ !! "HOST" with
             | Some value => if bool_decide (value = "") then "localhost"
                             else value
             | None => "localhost"
             end
    ∧ port = match environ !! "PORT" with
             | Some value => if bool_decide (value = "") then "8080"
                             else value
             | None => "8080"
             end.
Proof.
  exists (getEnv environ "HOST" defaultHost),
         (getEnv environ "PORT" defaultPort).
  split; [reflexivity |].
  rewrite !getEnv_cases.
  repeat split.
  - destruct (environ !! "HOST") as [v |]; [| discriminate].
    case_bool_decide; [discriminate | assumption].
  - destruct (environ !! "PORT") as [v |]; [| discriminate].
    case_bool_decide; [discriminate | assumption].
Qed.
